(** * Knowledge-base search: the search agent and the search API server

    A shallow embedding of [search-agent.js] (the client: [loadKB],
    [localSearch], [apiSearch], [search]) and of the search API server
    ([loadKBData], [getEmbeddingsCache], [cosineSimilarity],
    [semanticSearch], [textSearch], the [POST /search] route), followed by
    the properties of the retrieval-and-ranking engine.

    Conventions of the embedding:
    - JavaScript strings are [string]s of 8-bit characters; [toLowerCase]
      lowers the letters A..Z, as the source does on ASCII text.
    - an optional property ([summary], [source], [tags], [date]) is an
      [option]; [None] is the absent property ([undefined]).
    - numbers that the client computes are small integers and are kept in
      [Z]; numbers of the server (normalised scores, cosine similarities,
      percentages) are IEEE 754 binary64 values, Rocq's primitive [float].
    - a function that can throw (or an async function that can reject)
      returns a [completion]; module-level variables and the effects on the
      outside world are threaded through an explicit state. *)

From Stdlib Require Import ZArith List String Ascii Bool Lia Floats.
From Stdlib Require Import Permutation DecimalString Sorting.Sorted.
From stdpp Require Import gmap strings.
Import ListNotations.
Open Scope string_scope.
Open Scope Z_scope.

(** ** JavaScript primitives used by the sources *)

Module JS.

(** [String.prototype.toLowerCase], on ASCII. *)
Definition lower_ascii (c : ascii) : ascii :=
  let n := nat_of_ascii c in
  if (65 <=? n)%nat && (n <=? 90)%nat then ascii_of_nat (n + 32) else c.

Fixpoint toLowerCase (s : string) : string :=
  match s with
  | EmptyString => EmptyString
  | String c s' => String (lower_ascii c) (toLowerCase s')
  end.

(** [String.prototype.includes]: [t] occurs in [s] as a substring. *)
Fixpoint includes (s t : string) : bool :=
  String.prefix t s ||
  match s with
  | EmptyString => false
  | String _ s' => includes s' t
  end.

(** The characters that [\s] matches (and that [trim] strips), on ASCII:
    tab, line feed, vertical tab, form feed, carriage return, space. *)
Definition is_space (c : ascii) : bool :=
  let n := nat_of_ascii c in
  ((9 <=? n)%nat && (n <=? 13)%nat) || (n =? 32)%nat.

(** [s.split(/\s+/)]: cut at every maximal run of white space.  The token
    being read is [cur]; [in_ws] tells that the previous character was white
    space.  A leading or trailing run yields an empty token, and the empty
    string yields one empty token, as in JavaScript. *)
Fixpoint split_ws_from (s : string) (cur : string) (in_ws : bool) : list string :=
  match s with
  | EmptyString => [cur]
  | String c s' =>
      if is_space c then
        if in_ws then split_ws_from s' cur true
        else cur :: split_ws_from s' EmptyString true
      else split_ws_from s' (cur ++ String c EmptyString) false
  end.

Definition split_ws (s : string) : list string :=
  split_ws_from s EmptyString false.

(** [String.prototype.trim]. *)
Fixpoint trimStart (s : string) : string :=
  match s with
  | String c s' => if is_space c then trimStart s' else s
  | EmptyString => EmptyString
  end.

Fixpoint trimEnd (s : string) : string :=
  match s with
  | EmptyString => EmptyString
  | String c s' =>
      match trimEnd s' with
      | EmptyString => if is_space c then EmptyString else String c EmptyString
      | r => String c r
      end
  end.

Definition trim (s : string) : string := trimEnd (trimStart s).

(** [Array.prototype.join(' ')]. *)
Fixpoint join_sp (l : list string) : string :=
  match l with
  | [] => EmptyString
  | [x] => x
  | x :: l' => x ++ " " ++ join_sp l'
  end.

(** Truthiness of a string value: the empty string is falsy. *)
Definition truthy (s : string) : bool :=
  match s with EmptyString => false | _ => true end.

(** Truthiness of an optional string property. *)
Definition truthy_opt (o : option string) : bool :=
  match o with Some s => truthy s | None => false end.

(** [o || ''] for an optional string. *)
Definition or_empty (o : option string) : string :=
  match o with Some s => s | None => EmptyString end.

(** [`${o}`] for an optional string: an absent property prints as
    the word undefined. *)
Definition template_opt (o : option string) : string :=
  match o with Some s => s | None => "undefined" end.

(** [o?.toLowerCase().includes(q)], used as a condition: an absent
    property short-circuits to [undefined], which is falsy. *)
Definition opt_includes_lower (o : option string) (q : string) : bool :=
  match o with Some s => includes (toLowerCase s) q | None => false end.

(** [Array.prototype.sort] with a comparator.  [after x y] holds when the
    comparator is positive on [(x, y)], that is when [y] must come before
    [x].  The sort is stable (ECMAScript 2019): an element moves only behind
    the elements that must come before it. *)
Section Sort.
Context {A : Type} (after : A -> A -> bool).

Fixpoint sort_insert (x : A) (l : list A) : list A :=
  match l with
  | [] => [x]
  | y :: l' => if after x y then y :: sort_insert x l' else x :: l
  end.

Fixpoint sort (l : list A) : list A :=
  match l with
  | [] => []
  | x :: l' => sort_insert x (sort l')
  end.

End Sort.

(** [arr.slice(0, limit)] for an integer [limit]: a negative [limit] counts
    from the end of the array. *)
Definition slice0 {A : Type} (limit : Z) (l : list A) : list A :=
  if limit <? 0
  then firstn (Z.to_nat (Z.max (Z.of_nat (length l) + limit) 0)) l
  else firstn (Z.to_nat limit) l.

(** [[...new Set(l)]]: the first occurrence of every element, in order. *)
Fixpoint dedup (seen : list string) (l : list string) : list string :=
  match l with
  | [] => []
  | x :: l' =>
      if existsb (String.eqb x) seen then dedup seen l'
      else x :: dedup (x :: seen) l'
  end.

(** What a call yields: a value, or a thrown error (a rejected promise for
    an async function) with its message. *)
Inductive completion (A : Type) : Type :=
| Normal (v : A)
| Throw (msg : string).
Arguments Normal {A} v.
Arguments Throw {A} msg.

(** Computations over a state [S] that can throw. *)
Definition M (S A : Type) : Type := S -> completion A * S.

Definition ret {S A : Type} (v : A) : M S A := fun s => (Normal v, s).

Definition throw {S A : Type} (msg : string) : M S A := fun s => (Throw msg, s).

Definition bind {S A B : Type} (m : M S A) (k : A -> M S B) : M S B :=
  fun s => match m s with
           | (Normal v, s') => k v s'
           | (Throw msg, s') => (Throw msg, s')
           end.

(** [try { m } catch (err) { h err }]. *)
Definition try_catch {S A : Type} (m : M S A) (h : string -> M S A) : M S A :=
  fun s => match m s with
           | (Normal v, s') => (Normal v, s')
           | (Throw msg, s') => h msg s'
           end.

Notation "'let*' x ':=' m 'in' k" := (bind m (fun x => k))
  (at level 10, x name, m at level 100, k at level 200).

End JS.
Import JS.

(** ** The data model shared by the client and the server *)

(** An entry of the knowledge base, as the sources read it. *)
Record Entry := {
  id : Z;
  title : string;
  summary : option string;
  category : string;
  source : option string;
  tags : option (list string);
  date : option string;
  url : string
}.

(** The parsed knowledge-base document. *)
Record KB := {
  entries : list Entry;
  categories : list string;
  lastUpdated : option string
}.

(** What the backing file holds: text that [JSON.parse] rejects, or the
    text of a knowledge-base document. *)
Inductive file_text :=
| Malformed
| Json (kb : KB).

Record file := { mtime : Z; content : file_text }.

(** The options object of a search call and the body of a search request.
    [None] is an absent property. *)
Record options := {
  opt_category : option string;
  opt_dateFrom : option string;
  opt_dateTo : option string;
  opt_limit : option Z;
  opt_includeSummary : option bool;
  opt_useApi : option bool
}.

Definition no_options : options :=
  {| opt_category := None; opt_dateFrom := None; opt_dateTo := None;
     opt_limit := None; opt_includeSummary := None; opt_useApi := None |}.

(** The same options without the category. *)
Definition without_category (o : options) : options :=
  {| opt_category := None; opt_dateFrom := opt_dateFrom o; opt_dateTo := opt_dateTo o;
     opt_limit := opt_limit o; opt_includeSummary := opt_includeSummary o;
     opt_useApi := opt_useApi o |}.

(** [category && category !== 'all']. *)
Definition category_given (c : option string) : option string :=
  match c with
  | Some c => if truthy c && negb (String.eqb c "all") then Some c else None
  | None => None
  end.

(** A number of a response: an integer computed by the client, or a
    binary64 value computed by the server. *)
Inductive number :=
| Int (z : Z)
| Num (f : float).

(** [{ ...entry, relevance }]. *)
Record result_record := { rec_entry : Entry; relevance : number }.

(** The result envelope.  [env_fallback] and [env_local] are true when the
    object has the property [fallback] (resp. [local]) set to [true]; an
    object without the property reads as false. *)
Record envelope := {
  env_summary : option string;
  env_results : list result_record;
  env_total : nat;
  env_fallback : bool;
  env_local : bool
}.

(** The JSON body of a response of the search API. *)
Inductive json_body :=
| ErrorBody (error : string)
| EnvelopeBody (env : envelope).

(** The body of [POST /search]. *)
Record request := {
  req_query : option string;
  req_options : options
}.

(** What [fetch] followed by [response.json()] can do: [fetch] rejects, or
    a response arrives with a status and a body; the body is [None] when it
    is not JSON, so that [response.json()] rejects. *)
Inductive fetch_outcome :=
| FetchRejects (msg : string)
| FetchResponds (status : Z) (body : option json_body).

(** [response.ok]. *)
Definition response_ok (status : Z) : bool := (200 <=? status) && (status <=? 299).

(** ** The search agent ([search-agent.js]) *)

Module Client.

(** The object that [JSON.parse] returned, with its identity: two snapshots
    are the same object when their [snap_ref] agree. *)
Record snapshot := { snap_ref : nat; snap_data : KB }.

(** The module variables [kbCache] and [kbLastModified]; [parses] counts the
    documents that [JSON.parse] has returned and names the next one. *)
Record state := {
  kbCache : option snapshot;
  kbLastModified : option Z;
  parses : nat
}.

Definition initial : state :=
  {| kbCache := None; kbLastModified := None; parses := 0 |}.

(** The world around a call: the file at [KB_PATH] ([None] when it does not
    exist), the clock, [Date] parsing ([None] is an invalid date), and the
    search API as [fetch] sees it. *)
Record world := {
  w_file : option file;
  w_now : Z;
  w_dateParse : string -> option Z;
  w_fetch : request -> fetch_outcome
}.

(** [loadKB]. *)
Definition loadKB (w : world) : M state snapshot :=
  fun s =>
    match w_file w with
    | None => (Throw "Failed to load KB: ENOENT: no such file or directory", s)
    | Some f =>
        let reload :=
          match content f with
          | Malformed => (Throw "Failed to load KB: Unexpected token in JSON", s)
          | Json kb =>
              let data := {| snap_ref := parses s; snap_data := kb |} in
              (Normal data,
               {| kbCache := Some data;
                  kbLastModified := Some (mtime f);
                  parses := S (parses s) |})
          end in
        match kbCache s with
        | None => reload
        | Some cached =>
            match kbLastModified s with
            | Some t => if mtime f =? t then (Normal cached, s) else reload
            | None => reload
            end
        end
    end.

Record scored := { entry : Entry; score : Z; matches : list string }.

(** One day, in milliseconds. *)
Definition day_ms : Z := 1000 * 60 * 60 * 24.

(** The date boost.  [daysOld = (now - entryDate) / day_ms] is compared with
    30 and 90; on millisecond counts the comparison is the one of
    [now - entryDate] with [30 * day_ms] and [90 * day_ms].  An invalid date
    makes [daysOld] NaN and both comparisons false. *)
Definition date_boost (w : world) (d : option string) : Z :=
  match d with
  | Some d =>
      if truthy d then
        match w_dateParse w d with
        | Some entryDate =>
            if w_now w - entryDate <? 30 * day_ms then 2
            else if w_now w - entryDate <? 90 * day_ms then 1
            else 0
        | None => 0
        end
      else 0
  | None => 0
  end.

(** The text that the query words are looked up in. *)
Definition entry_text (e : Entry) : string :=
  toLowerCase (title e ++ " " ++ or_empty (summary e) ++ " " ++ category e
               ++ " " ++ template_opt (source e) ++ " "
               ++ join_sp (match tags e with Some t => t | None => [] end)).

(** [queryLower.split(/\s+/).filter(w => w.length > 2)]. *)
Definition query_words (queryLower : string) : list string :=
  List.filter (fun w => (2 <? String.length w)%nat) (split_ws queryLower).

(** The body of the [forEach] over the query words. *)
Definition count_word (text : string) (acc : Z * list string) (word : string)
  : Z * list string :=
  if includes text word then (fst acc + 1, (snd acc ++ [word])%list) else acc.

(** The callback of [data.entries.map] in [localSearch]: the score is built
    up statement by statement, as in the source. *)
Definition score_entry (w : world) (queryLower : string) (queryWords : list string)
    (e : Entry) : scored :=
  let text := entry_text e in
  let '(score, matches) := fold_left (count_word text) queryWords (0, []) in
  let titleLower := toLowerCase (title e) in
  let score :=
    if includes titleLower queryLower then score + 10
    else if forallb (fun w => includes titleLower w) queryWords then score + 5
    else score in
  let score := if opt_includes_lower (summary e) queryLower then score + 3 else score in
  let score := if opt_includes_lower (source e) queryLower then score + 2 else score in
  let score := score + date_boost w (date e) in
  {| entry := e; score := score; matches := dedup [] matches |}.

(** The comparator [(a, b) => b.score - a.score] is positive. *)
Definition after (a b : scored) : bool := 0 <? score b - score a.

Definition category_filter (c : option string) (results : list scored) : list scored :=
  match category_given c with
  | Some c =>
      List.filter (fun r => String.eqb (toLowerCase (category (entry r))) (toLowerCase c)) results
  | None => results
  end.

Definition limit_or_10 (o : options) : Z :=
  match opt_limit o with Some l => l | None => 10 end.

(** The ranking of [localSearch] before the final [slice]. *)
Definition local_ranking (w : world) (query : string) (o : options) (data : KB) : list scored :=
  let queryLower := toLowerCase query in
  let queryWords := query_words queryLower in
  let results := map (score_entry w queryLower queryWords) (entries data) in
  let results := category_filter (opt_category o) results in
  let results := sort after results in
  List.filter (fun r => 0 <? score r) results.

(** [localSearch]. *)
Definition localSearch (w : world) (query : string) (o : options) : M state (list scored) :=
  let* data := loadKB w in
  ret (slice0 (limit_or_10 o) (local_ranking w query o (snap_data data))).

(** [results.map(r => ({ ...r.entry, relevance: Math.min(r.score * 10, 100) }))]. *)
Definition to_record (r : scored) : result_record :=
  {| rec_entry := entry r; relevance := Int (Z.min (score r * 10) 100) |}.

(** The body that [apiSearch] posts. *)
Definition api_request (query : string) (o : options) : request :=
  {| req_query := Some query;
     req_options :=
       {| opt_category := opt_category o;
          opt_dateFrom := opt_dateFrom o;
          opt_dateTo := opt_dateTo o;
          opt_limit := Some (limit_or_10 o);
          opt_includeSummary :=
            Some (match opt_includeSummary o with Some b => b | None => true end);
          opt_useApi := None |} |}.

(** The [catch] branch of [apiSearch]: the local search with the category
    and the limit only. *)
Definition api_fallback (w : world) (query : string) (o : options) : M state json_body :=
  let* results := localSearch w query
    {| opt_category := opt_category o; opt_dateFrom := None; opt_dateTo := None;
       opt_limit := Some (limit_or_10 o); opt_includeSummary := None;
       opt_useApi := None |} in
  ret (EnvelopeBody
         {| env_summary := None;
            env_results := map to_record results;
            env_total := length results;
            env_fallback := true;
            env_local := false |}).

(** The remote path failed: [fetch] rejected, the status is not a success,
    or the body is not JSON. *)
Definition remote_failed (out : fetch_outcome) : bool :=
  match out with
  | FetchRejects _ => true
  | FetchResponds status None => true
  | FetchResponds status (Some _) => negb (response_ok status)
  end.

(** [apiSearch]: the [try] block yields the body of a response that is
    [ok] and is JSON; everything else lands in the [catch] branch. *)
Definition apiSearch (w : world) (query : string) (o : options) : M state json_body :=
  match w_fetch w (api_request query o) with
  | FetchResponds status (Some data) =>
      if response_ok status then ret data else api_fallback w query o
  | FetchResponds status None => api_fallback w query o
  | FetchRejects _ => api_fallback w query o
  end.

(** What [search] resolves to.  The [formatted] text is the display
    adapter's ([formatResults], total on these records) and is left out. *)
Record search_result := { success : bool; data : json_body }.

Definition search_local (w : world) (query : string) (o : options) : M state search_result :=
  let* results := localSearch w query o in
  ret {| success := true;
         data := EnvelopeBody
           {| env_summary := None;
              env_results := map to_record results;
              env_total := length results;
              env_fallback := false;
              env_local := true |} |}.

(** [search]. *)
Definition search (w : world) (query : string) (o : options) : M state search_result :=
  match opt_useApi o with
  | Some false => search_local w query o
  | _ =>
      try_catch
        (let* data := apiSearch w query o in ret {| success := true; data := data |})
        (fun _ => search_local w query o)
  end.

End Client.

(** ** The search API server *)

Module Server.

Definition nan : float := (0 / 0)%float.

(** A small non-negative integer as a number. *)
Definition float_of_Z (z : Z) : float :=
  PrimFloat.of_uint63 (Uint63.of_Z z).

(** [Math.round]: the integer nearest to [x], the one towards plus infinity
    on a tie; zeros, infinities and NaN are returned unchanged.  A finite [x]
    is [m * 2^e] up to its sign, so the result is computed exactly on
    integers as the floor of [x + 1/2]. *)
Definition Math_round (x : float) : float :=
  match Prim2SF x with
  | S754_finite s m e =>
      if 0 <=? e then x
      else
        let d := 2 ^ (- e) in
        let q := if s then - Z.pos m else Z.pos m in
        let r := (2 * q + d) / (2 * d) in
        if s then PrimFloat.opp (PrimFloat.of_uint63 (Uint63.of_Z (- r)))
        else PrimFloat.of_uint63 (Uint63.of_Z r)
  | _ => x
  end.

(** What the embeddings endpoint does on a request: [fetch] rejects, the
    body is not JSON, the body has an [error], the body has no [data], or
    the body carries one embedding per item of [data]. *)
Inductive provider_reply :=
| NetworkFailure
| NotJson
| ErrorReply (message : string)
| MissingData
| Data (items : list (list float)).

(** The file [.embeddings-cache.json]: absent, unreadable as JSON, or a
    mapping from entry ids to embeddings. *)
Inductive cache_file :=
| NoCacheFile
| BadCacheFile
| CacheFile (c : gmap Z (list float)).

(** The calls that leave the process or touch the stored entries. *)
Inductive event :=
| ReadKB
| EmbedCall (input : list string)
| SummaryCall (query : string)
| WriteCacheFile.

Record scored := { entry : Entry; score : float }.

(** The module variables [kbData] and [embeddingsCache], the cache file,
    and the trace of the calls made so far. *)
Record state := {
  kbData : option KB;
  embeddingsCache : option (gmap Z (list float));
  cacheFile : cache_file;
  log : list event
}.

(** The world around the server: the knowledge-base file, the key, the
    embeddings endpoint, and [generateSummary], which absorbs every failure
    of its providers and yields a text or [null]. *)
Record world := {
  w_kbFile : option file;
  OPENAI_API_KEY : option string;
  w_embed : list string -> provider_reply;
  w_summary : string -> list scored -> option string
}.

(** Record a call in the trace. *)
Definition emit (e : event) : M state unit :=
  fun s => (Normal tt,
            {| kbData := kbData s; embeddingsCache := embeddingsCache s;
               cacheFile := cacheFile s; log := (log s ++ [e])%list |}).

(** [loadKBData]: the first document read is kept for the life of the
    process. *)
Definition loadKBData (w : world) : M state KB :=
  fun s =>
    match kbData s with
    | Some data => (Normal data, s)
    | None =>
        let s := snd (emit ReadKB s) in
        match w_kbFile w with
        | None => (Throw "ENOENT: no such file or directory", s)
        | Some f =>
            match content f with
            | Malformed => (Throw "Unexpected token in JSON", s)
            | Json data =>
                (Normal data,
                 {| kbData := Some data; embeddingsCache := embeddingsCache s;
                    cacheFile := cacheFile s; log := log s |})
            end
        end
    end.

(** The text that is embedded for an entry. *)
Definition embedding_text (e : Entry) : string :=
  title e ++ ". " ++ or_empty (summary e) ++ " " ++ category e ++ " "
  ++ join_sp (match tags e with Some t => t | None => [] end).

(** [result.data.forEach((item, idx) => cache[batch[idx].id] = item.embedding)]:
    an item beyond the batch throws, which ends the loop and keeps what was
    stored. *)
Fixpoint store_items (batch : list Entry) (items : list (list float))
    (cache : gmap Z (list float)) : gmap Z (list float) :=
  match items, batch with
  | item :: items', e :: batch' => store_items batch' items' (<[id e := item]> cache)
  | _, _ => cache
  end.

Definition batchSize : nat := 100.

(** The loop of [generateEmbeddings] over the batches; a batch whose call
    fails is skipped.  [fuel] bounds the number of batches. *)
Fixpoint embed_batches (w : world) (fuel : nat) (rest : list Entry)
    (cache : gmap Z (list float)) (calls : list event)
  : gmap Z (list float) * list event :=
  match fuel, rest with
  | S fuel', _ :: _ =>
      let batch := firstn batchSize rest in
      let texts := map embedding_text batch in
      let cache :=
        match w_embed w texts with
        | Data items => store_items batch items cache
        | _ => cache
        end in
      embed_batches w fuel' (skipn batchSize rest) cache (calls ++ [EmbedCall texts])%list
  | _, _ => (cache, calls)
  end.

(** [generateEmbeddings]. *)
Definition generateEmbeddings (w : world) : M state (gmap Z (list float)) :=
  let* data := loadKBData w in
  fun s =>
    let '(cache, calls) := embed_batches w (length (entries data)) (entries data) ∅ [] in
    (Normal cache,
     {| kbData := kbData s; embeddingsCache := Some cache;
        cacheFile := CacheFile cache;
        log := (log s ++ calls ++ [WriteCacheFile])%list |}).

Definition has_key (w : world) : bool := truthy_opt (OPENAI_API_KEY w).

(** [getEmbeddingsCache]. *)
Definition getEmbeddingsCache (w : world) : M state (gmap Z (list float)) :=
  fun s =>
    match embeddingsCache s with
    | Some cache => (Normal cache, s)
    | None =>
        match cacheFile s with
        | CacheFile cache =>
            (Normal cache,
             {| kbData := kbData s; embeddingsCache := Some cache;
                cacheFile := cacheFile s; log := log s |})
        | _ =>
            if has_key w then generateEmbeddings w s else (Normal ∅, s)
        end
    end.

(** One turn of the loop of [cosineSimilarity]; an index beyond an array
    reads [undefined], and the product with it is NaN. *)
Definition cosine_step (a b : list float) (acc : float * float * float) (i : nat)
  : float * float * float :=
  let '(dotProduct, normA, normB) := acc in
  let ai := nth i a nan in
  let bi := nth i b nan in
  ((dotProduct + ai * bi)%float, (normA + ai * ai)%float, (normB + bi * bi)%float).

(** [cosineSimilarity]: the loop runs over the indices of [a]; nothing in
    it throws. *)
Definition cosineSimilarity (a b : list float) : completion float :=
  let '(dotProduct, normA, normB) :=
    fold_left (cosine_step a b) (seq 0 (length a)) (0%float, 0%float, 0%float) in
  Normal (dotProduct / (PrimFloat.sqrt normA * PrimFloat.sqrt normB))%float.

(** [getQueryEmbedding]: [null] without a key; otherwise one call of the
    endpoint, whose failures are thrown. *)
Definition getQueryEmbedding (w : world) (query : string) : M state (option (list float)) :=
  if has_key w then
    let* _ := emit (EmbedCall [query]) in
    match w_embed w [query] with
    | NetworkFailure => throw "fetch failed"
    | NotJson => throw "Unexpected token in JSON"
    | ErrorReply message => throw message
    | MissingData => throw "Cannot read properties of undefined (reading '0')"
    | Data [] => throw "Cannot read properties of undefined (reading 'embedding')"
    | Data (embedding :: _) => ret (Some embedding)
    end
  else ret None.

(** The comparator [(a, b) => b.score - a.score] is positive. *)
Definition after (a b : scored) : bool :=
  PrimFloat.ltb 0%float (PrimFloat.sub (score b) (score a)).

(** The three filters that follow the sort. *)
Definition apply_filters (o : options) (results : list scored) : list scored :=
  let results :=
    match category_given (opt_category o) with
    | Some c => List.filter (fun r => String.eqb (category (entry r)) c) results
    | None => results
    end in
  let results :=
    match opt_dateFrom o with
    | Some dateFrom =>
        if truthy dateFrom then
          List.filter (fun r => negb (truthy_opt (date (entry r)))
                           || String.leb dateFrom (or_empty (date (entry r)))) results
        else results
    | None => results
    end in
  match opt_dateTo o with
  | Some dateTo =>
      if truthy dateTo then
        List.filter (fun r => negb (truthy_opt (date (entry r)))
                         || String.leb (or_empty (date (entry r))) dateTo) results
      else results
  | None => results
  end.

(** An entry passes the three filters. *)
Definition passes (o : options) (e : Entry) : bool :=
  match category_given (opt_category o) with
  | Some c => String.eqb (category e) c
  | None => true
  end
  && match opt_dateFrom o with
     | Some dateFrom =>
         if truthy dateFrom
         then negb (truthy_opt (date e)) || String.leb dateFrom (or_empty (date e))
         else true
     | None => true
     end
  && match opt_dateTo o with
     | Some dateTo =>
         if truthy dateTo
         then negb (truthy_opt (date e)) || String.leb (or_empty (date e)) dateTo
         else true
     | None => true
     end.

Definition limit_or_10 (o : options) : Z :=
  match opt_limit o with Some l => l | None => 10 end.

(** The text that [textSearch] looks the query words up in. *)
Definition entry_text (e : Entry) : string :=
  toLowerCase (title e ++ " " ++ or_empty (summary e) ++ " " ++ category e
               ++ " " ++ template_opt (source e) ++ " "
               ++ join_sp (match tags e with Some t => t | None => [] end)).

Definition query_words (queryLower : string) : list string :=
  List.filter (fun w => (2 <? String.length w)%nat) (split_ws queryLower).

(** The score that the callback of [data.entries.map] in [textSearch]
    builds up before it is normalised: a small integer. *)
Definition text_raw (queryLower : string) (queryWords : list string) (e : Entry) : Z :=
  let text := entry_text e in
  let score :=
    fold_left (fun score word => if includes text word then score + 1 else score)
              queryWords 0 in
  let score := if includes (toLowerCase (title e)) queryLower then score + 5 else score in
  let score := if opt_includes_lower (summary e) queryLower then score + 3 else score in
  score.

(** The callback itself: [score / (queryWords.length + 5)]. *)
Definition text_score (queryLower : string) (queryWords : list string) (e : Entry) : scored :=
  {| entry := e;
     score := (float_of_Z (text_raw queryLower queryWords e)
               / float_of_Z (Z.of_nat (length queryWords) + 5))%float |}.

(** The ranking of [textSearch] before the final [slice]. *)
Definition text_ranking (query : string) (o : options) (data : KB) : list scored :=
  let queryLower := toLowerCase query in
  let queryWords := query_words queryLower in
  let results := map (text_score queryLower queryWords) (entries data) in
  let results := sort after results in
  let results := apply_filters o results in
  List.filter (fun r => PrimFloat.ltb 0%float (score r)) results.

(** [textSearch]. *)
Definition textSearch (w : world) (query : string) (o : options) : M state (list scored) :=
  let* data := loadKBData w in
  ret (slice0 (limit_or_10 o) (text_ranking query o data)).

(** The callback of [data.entries.map] in [semanticSearch]; a [null] query
    embedding has no [length]. *)
Definition vector_score (cache : gmap Z (list float)) (queryEmbedding : option (list float))
    (e : Entry) : completion scored :=
  match cache !! id e with
  | None => Normal {| entry := e; score := 0%float |}
  | Some embedding =>
      match queryEmbedding with
      | None => Throw "Cannot read properties of null (reading 'length')"
      | Some q =>
          match cosineSimilarity q embedding with
          | Normal similarity => Normal {| entry := e; score := similarity |}
          | Throw msg => Throw msg
          end
      end
  end.

(** [arr.map(f)] for a callback that can throw. *)
Fixpoint map_completion {A B} (f : A -> completion B) (l : list A) : completion (list B) :=
  match l with
  | [] => Normal []
  | x :: l' =>
      match f x with
      | Throw msg => Throw msg
      | Normal y =>
          match map_completion f l' with
          | Throw msg => Throw msg
          | Normal ys => Normal (y :: ys)
          end
      end
  end.

(** The ranking of the vector branch of [semanticSearch] before the final
    [slice]. *)
Definition vector_ranking (o : options) (results : list scored) : list scored :=
  apply_filters o (sort after results).

(** [semanticSearch]. *)
Definition semanticSearch (w : world) (query : string) (o : options) : M state (list scored) :=
  let* data := loadKBData w in
  let* cache := getEmbeddingsCache w in
  if (size cache =? 0)%nat || negb (has_key w) then textSearch w query o
  else
    let* queryEmbedding := getQueryEmbedding w query in
    match map_completion (vector_score cache queryEmbedding) (entries data) with
    | Throw msg => throw msg
    | Normal results => ret (slice0 (limit_or_10 o) (vector_ranking o results))
    end.

(** [generateSummary], seen from the route. *)
Definition generateSummary (w : world) (query : string) (results : list scored)
  : M state (option string) :=
  let* _ := emit (SummaryCall query) in
  ret (w_summary w query results).

Record response := { status : Z; body : json_body }.

(** [searchResults.map(r => ({ ...r.entry, relevance: Math.round(r.score * 100) }))]. *)
Definition to_record (r : scored) : result_record :=
  {| rec_entry := entry r; relevance := Num (Math_round (score r * 100)%float) |}.

Definition found_text (n : nat) : string :=
  "Found " ++ NilZero.string_of_uint (Nat.to_uint n) ++ " relevant entries.".

(** The [try] block of the [POST /search] route after the validation. *)
Definition search_route (w : world) (query : string) (o : options) : M state response :=
  let* searchResults :=
    semanticSearch w query
      {| opt_category := opt_category o; opt_dateFrom := opt_dateFrom o;
         opt_dateTo := opt_dateTo o; opt_limit := Some (limit_or_10 o);
         opt_includeSummary := None; opt_useApi := None |} in
  match searchResults with
  | [] =>
      ret {| status := 200;
             body := EnvelopeBody
               {| env_summary := Some "I couldn't find any entries matching your query. Try different keywords or broaden your search.";
                  env_results := []; env_total := 0;
                  env_fallback := false; env_local := false |} |}
  | _ =>
      let* summary :=
        match opt_includeSummary o with
        | Some false => ret None
        | _ => generateSummary w query searchResults
        end in
      ret {| status := 200;
             body := EnvelopeBody
               {| env_summary :=
                    Some (if truthy_opt summary then or_empty summary
                          else found_text (length searchResults));
                  env_results := map to_record searchResults;
                  env_total := length searchResults;
                  env_fallback := false; env_local := false |} |}
  end.

(** The handler of [POST /search]: a missing, empty or blank query is
    answered with status 400 before anything else is done; an error thrown
    by the search is answered with status 500. *)
Definition post_search (w : world) (req : request) (s : state) : response * state :=
  match req_query req with
  | None => ({| status := 400; body := ErrorBody "Query is required" |}, s)
  | Some query =>
      if negb (truthy query) || negb (truthy (trim query))
      then ({| status := 400; body := ErrorBody "Query is required" |}, s)
      else
        match search_route w query (req_options req) s with
        | (Normal r, s') => (r, s')
        | (Throw msg, s') => ({| status := 500; body := ErrorBody msg |}, s')
        end
  end.

(** The server as [fetch] reaches it, when the network delivers. *)
Definition serve (w : world) (s : state) (req : request) : fetch_outcome :=
  let r := fst (post_search w req s) in
  FetchResponds (status r) (Some (body r)).

End Server.

(** ** The lexical scorer in the words of the specification *)

Module Spec.

(** Step 3: one point for every surviving token that occurs in the entry
    text. *)
Definition word_hits (text : string) (queryWords : list string) : Z :=
  Z.of_nat (length (List.filter (includes text) queryWords)).

(** Step 4: 10 if the full query occurs in the title, else 5 if every
    token occurs in the title. *)
Definition title_boost (titleLower queryLower : string) (queryWords : list string) : Z :=
  if includes titleLower queryLower then 10
  else if forallb (includes titleLower) queryWords then 5
  else 0.

(** Step 5: 3 if the full query occurs in the summary, 2 if it occurs in
    the source. *)
Definition summary_boost (summary : option string) (queryLower : string) : Z :=
  match summary with
  | Some s => if includes (toLowerCase s) queryLower then 3 else 0
  | None => 0
  end.

Definition source_boost (source : option string) (queryLower : string) : Z :=
  match source with
  | Some s => if includes (toLowerCase s) queryLower then 2 else 0
  | None => 0
  end.

(** The boost of [textSearch] for the full query in the title. *)
Definition text_title_boost (titleLower queryLower : string) : Z :=
  if includes titleLower queryLower then 5 else 0.

End Spec.

(** ** Concrete data for the examples *)

Module Fixtures.

Definition e1 : Entry :=
  {| id := 1; title := "Karpathy releases new tokenizer"; summary := None;
     category := "research"; source := None; tags := None;
     date := Some "2024-01-01"; url := "https://example.org/1" |}.

Definition e2 : Entry :=
  {| id := 2; title := "Weather report"; summary := None;
     category := "misc"; source := None; tags := None;
     date := Some "2024-06-01"; url := "https://example.org/2" |}.

Definition kb0 : KB :=
  {| entries := [e1; e2]; categories := ["research"; "misc"]; lastUpdated := None |}.

(** [Date] parsing on the two dates of the examples (milliseconds since the
    epoch, UTC). *)
Definition dateParse0 (s : string) : option Z :=
  if String.eqb s "2024-01-01" then Some 1704067200000
  else if String.eqb s "2024-06-01" then Some 1717200000000
  else None.

(** The document after an update: the first entry is gone. *)
Definition kb1 : KB :=
  {| entries := [e2]; categories := ["misc"]; lastUpdated := None |}.

(** A client whose file holds [kb0]; the clock reads 2025-01-01, so that no
    entry is recent; the search API is unreachable. *)
Definition cw0 : Client.world :=
  {| Client.w_file := Some {| mtime := 1000; content := Json kb0 |};
     Client.w_now := 1735689600000;
     Client.w_dateParse := dateParse0;
     Client.w_fetch := fun _ => FetchRejects "fetch failed" |}.

(** The same client on 2024-06-02: the second entry is one day old. *)
Definition cw_recent : Client.world :=
  {| Client.w_file := Client.w_file cw0;
     Client.w_now := 1717286400000;
     Client.w_dateParse := dateParse0;
     Client.w_fetch := Client.w_fetch cw0 |}.

(** The client after the file was rewritten with [kb1]. *)
Definition cw_changed : Client.world :=
  {| Client.w_file := Some {| mtime := 2000; content := Json kb1 |};
     Client.w_now := Client.w_now cw0;
     Client.w_dateParse := dateParse0;
     Client.w_fetch := Client.w_fetch cw0 |}.

(** The client state after a first [loadKB] in [cw0]. *)
Definition cs_loaded : Client.state :=
  {| Client.kbCache := Some {| Client.snap_ref := 0; Client.snap_data := kb0 |};
     Client.kbLastModified := Some 1000; Client.parses := 1 |}.

(** A server without a key and without a cache file. *)
Definition sw_nokey : Server.world :=
  {| Server.w_kbFile := Some {| mtime := 1000; content := Json kb0 |};
     Server.OPENAI_API_KEY := None;
     Server.w_embed := fun _ => Server.NetworkFailure;
     Server.w_summary := fun _ _ => None |}.

(** The same server after the file was rewritten with [kb1]. *)
Definition sw_changed : Server.world :=
  {| Server.w_kbFile := Some {| mtime := 2000; content := Json kb1 |};
     Server.OPENAI_API_KEY := None;
     Server.w_embed := fun _ => Server.NetworkFailure;
     Server.w_summary := fun _ _ => None |}.

Definition s0 : Server.state :=
  {| Server.kbData := None; Server.embeddingsCache := None;
     Server.cacheFile := Server.NoCacheFile; Server.log := [] |}.

(** The server state after a first [loadKBData] of [kb0]. *)
Definition s_loaded : Server.state :=
  {| Server.kbData := Some kb0; Server.embeddingsCache := None;
     Server.cacheFile := Server.NoCacheFile; Server.log := [Server.ReadKB] |}.

(** A server with a key whose cache file holds one-dimensional embeddings
    for both entries; the endpoint answers every query with [[1]]. *)
Definition cache1 : gmap Z (list float) :=
  <[1 := [(-1)%float]]> (<[2 := [1%float]]> ∅).

Definition sw_key : Server.world :=
  {| Server.w_kbFile := Some {| mtime := 1000; content := Json kb0 |};
     Server.OPENAI_API_KEY := Some "sk-test";
     Server.w_embed := fun _ => Server.Data [[1%float]];
     Server.w_summary := fun _ _ => None |}.

Definition s_cached : Server.state :=
  {| Server.kbData := None; Server.embeddingsCache := None;
     Server.cacheFile := Server.CacheFile cache1; Server.log := [] |}.

(** A client whose [fetch] reaches the given server. *)
Definition cw_via (sw : Server.world) (ss : Server.state) : Client.world :=
  {| Client.w_file := Client.w_file cw0;
     Client.w_now := Client.w_now cw0;
     Client.w_dateParse := dateParse0;
     Client.w_fetch := Server.serve sw ss |}.

Definition with_category (c : string) (l : Z) : options :=
  {| opt_category := Some c; opt_dateFrom := None; opt_dateTo := None;
     opt_limit := Some l; opt_includeSummary := None; opt_useApi := None |}.

Definition with_limit (l : Z) : options :=
  {| opt_category := None; opt_dateFrom := None; opt_dateTo := None;
     opt_limit := Some l; opt_includeSummary := None; opt_useApi := None |}.

End Fixtures.

(** ** Display: [escapeMarkdown], [formatResults] and the output of the CLI *)

Module Display.

Definition backslash : ascii := ascii_of_nat 92.
Definition newline : ascii := ascii_of_nat 10.
Definition quote : string := String (ascii_of_nat 34) EmptyString.

(** The two characters that the source writes as an escaped backslash
    followed by the letter n: the separator of the lines of a formatted
    text. *)
Definition backslash_n : string := String backslash (String "n" EmptyString).

(** [s.replace(/c/g, by)] for one literal character [c]. *)
Fixpoint replace_char (c : ascii) (by_ : string) (s : string) : string :=
  match s with
  | EmptyString => EmptyString
  | String d s' =>
      if Ascii.eqb d c then by_ ++ replace_char c by_ s'
      else String d (replace_char c by_ s')
  end.

(** One [replace] of [escapeMarkdown]: a backslash goes before every [c]. *)
Definition escape_char (c : ascii) (s : string) : string :=
  replace_char c (String backslash (String c EmptyString)) s.

(** [escapeMarkdown]: ten replacements in a row, the backslash first. *)
Definition escapeMarkdown (text : option string) : string :=
  match text with
  | None => EmptyString
  | Some text =>
      if truthy text then
        escape_char ">" (escape_char "`" (escape_char "~" (escape_char ")"
          (escape_char "(" (escape_char "]" (escape_char "[" (escape_char "_"
            (escape_char "*" (escape_char backslash text)))))))))
      else EmptyString
  end.

(** The characters that [escapeMarkdown] escapes. *)
Definition special (c : ascii) : bool :=
  existsb (Ascii.eqb c)
    [backslash; "*"; "_"; "["; "]"; "("; ")"; "~"; "`"; ">"]%char.

(** Escaping in one pass over the text. *)
Fixpoint escape_each (s : string) : string :=
  match s with
  | EmptyString => EmptyString
  | String c s' =>
      if special c then String backslash (String c (escape_each s'))
      else String c (escape_each s')
  end.

(** The first replacement of the CLI on the formatted text: a backslash
    followed by the letter n becomes a line feed. *)
Fixpoint unescape_newlines (s : string) : string :=
  match s with
  | EmptyString => EmptyString
  | String b rest =>
      match rest with
      | String c s' =>
          if Ascii.eqb b backslash && Ascii.eqb c "n"
          then String newline (unescape_newlines s')
          else String b (unescape_newlines rest)
      | EmptyString => s
      end
  end.

(** The characters of the class of the second replacement of the CLI. *)
Definition cli_class (c : ascii) : bool :=
  existsb (Ascii.eqb c) ["*"; "_"; "["; "]"; "("; ")"; "~"; "`"; ">"]%char.

(** The second replacement of the CLI: a backslash in front of a character
    of the class is dropped. *)
Fixpoint unescape_markdown (s : string) : string :=
  match s with
  | EmptyString => EmptyString
  | String b rest =>
      match rest with
      | String c s' =>
          if Ascii.eqb b backslash && cli_class c
          then String c (unescape_markdown s')
          else String b (unescape_markdown rest)
      | EmptyString => s
      end
  end.

(** What the CLI prints for a formatted text. *)
Definition cli_print (formatted : string) : string :=
  unescape_markdown (unescape_newlines formatted).

(** [s.substring(0, n)]. *)
Fixpoint take_str (n : nat) (s : string) : string :=
  match n, s with
  | S n', String c s' => String c (take_str n' s')
  | _, _ => EmptyString
  end.

Definition show_nat (n : nat) : string := NilZero.string_of_uint (Nat.to_uint n).
Definition show_Z (z : Z) : string := NilZero.string_of_int (Z.to_int z).

(** The options of [formatResults]. *)
Record format_options := {
  fo_query : option string;
  fo_format : option string;
  fo_includeUrls : option bool
}.

(** Truthiness of a number: zero and NaN are falsy. *)
Definition truthy_number (n : number) : bool :=
  match n with
  | Int z => negb (z =? 0)
  | Num f => PrimFloat.eqb f f && negb (PrimFloat.eqb f 0%float)
  end.

(** [Array.prototype.join] with the separator [sep]. *)
Fixpoint join (sep : string) (l : list string) : string :=
  match l with
  | [] => EmptyString
  | [x] => x
  | x :: l' => x ++ sep ++ join sep l'
  end.

Section Format.
(** [Number.prototype.toString] on binary64 values. *)
Context (show_float : float -> string).

(** [`${relevance}`]. *)
Definition show_number (n : number) : string :=
  match n with
  | Int z => show_Z z
  | Num f => show_float f
  end.

(** The lines that the callback of [forEach] pushes for the result at
    index [i].  The constant is the binary64 value of 0.1. *)
Definition result_lines (detailed includeUrls : bool) (i : nat) (r : result_record)
  : list string :=
  let e := rec_entry r in
  let relevance :=
    if truthy_number (relevance r) then relevance r
    else Num (Server.Math_round
                ((1 - Server.float_of_Z (Z.of_nat i) * 0x1.999999999999ap-4) * 100)%float) in
  let title_ := escapeMarkdown (Some (take_str 60 (title e))) in
  let category_ := escapeMarkdown (Some (category e)) in
  let source_ :=
    escapeMarkdown (Some (if truthy_opt (source e) then or_empty (source e)
                          else "Unknown")) in
  concat
    [ [show_nat (i + 1) ++ ". *" ++ title_ ++ "*"
         ++ (if (60 <? String.length (title e))%nat then "..." else "");
       "   📁 " ++ category_ ++ " · 👤 " ++ source_];
      if includeUrls
      then ["   🔗 [View Entry]("
              ++ replace_char ")" (String backslash ")") (url e) ++ ")"]
      else [];
      if truthy_opt (summary e) && detailed
      then ["   📝 " ++ escapeMarkdown (Some (take_str 120 (or_empty (summary e))))
              ++ (if (120 <? String.length (or_empty (summary e)))%nat
                  then "..." else "")]
      else [];
      ["   📊 " ++ show_number relevance ++ "% match"; ""] ].

(** [arr.forEach((entry, i) => ...)] from index [i] on. *)
Fixpoint each_result (detailed includeUrls : bool) (i : nat) (l : list result_record)
  : list string :=
  match l with
  | [] => []
  | r :: l' =>
      (result_lines detailed includeUrls i r
       ++ each_result detailed includeUrls (S i) l')%list
  end.

(** [formatResults] on an envelope with results. *)
Definition format_envelope (env : envelope) (o : format_options) : string :=
  let detailed :=
    match fo_format o with Some f => String.eqb f "detailed" | None => false end in
  let includeUrls := match fo_includeUrls o with Some b => b | None => true end in
  join backslash_n
    (concat
       [ ["🔍 *Search Results: " ++ quote ++ escapeMarkdown (fo_query o) ++ quote ++ "*";
          "Found " ++ show_nat (env_total env) ++ " entries" ++ backslash_n];
         if truthy_opt (env_summary env)
         then concat
                [ ["✦ *AI Summary*";
                   escapeMarkdown (Some (take_str 500 (or_empty (env_summary env))))];
                  if (500 <? String.length (or_empty (env_summary env)))%nat
                  then ["..."] else [];
                  [""] ]
         else [];
         ["*Top Results:*"];
         each_result detailed includeUrls 0 (firstn 5 (env_results env));
         if (5 <? length (env_results env))%nat
         then ["_...and " ++ show_nat (length (env_results env) - 5)
                 ++ " more results_"]
         else [];
         if env_fallback env
         then [backslash_n ++ "⚠️ _Using local search (API unavailable)_"]
         else [] ]).

(** [formatResults]: a body without results, or with none, gets the one
    line that nothing was found. *)
Definition formatResults (data : json_body) (o : format_options) : string :=
  match data with
  | EnvelopeBody env =>
      match env_results env with
      | [] => "🔍 No results found for " ++ quote ++ template_opt (fo_query o) ++ quote
      | _ => format_envelope env o
      end
  | ErrorBody _ =>
      "🔍 No results found for " ++ quote ++ template_opt (fo_query o) ++ quote
  end.

End Format.

End Display.

(** ** Statistics and random entries ([getStats], [getRandomEntry]) *)

Module Stats.

(** What [getStats] returns. *)
Record stats := {
  totalEntries : nat;
  stats_categories : list string;
  sources : nat;
  stats_lastUpdated : option string
}.

(** Equality of two optional strings as members of a [Set]. *)
Definition same_value (a b : option string) : bool :=
  match a, b with
  | Some x, Some y => String.eqb x y
  | None, None => true
  | _, _ => false
  end.

(** [[...new Set(l)]] on optional strings: the first occurrence of every
    value, in order. *)
Fixpoint dedup_values (seen l : list (option string)) : list (option string) :=
  match l with
  | [] => []
  | x :: l' =>
      if existsb (same_value x) seen then dedup_values seen l'
      else x :: dedup_values (x :: seen) l'
  end.

(** [getStats]. *)
Definition getStats (w : Client.world) : M Client.state stats :=
  let* data := Client.loadKB w in
  ret {| totalEntries := length (entries (Client.snap_data data));
         stats_categories := categories (Client.snap_data data);
         sources :=
           length (List.filter truthy_opt
                     (dedup_values [] (map source (entries (Client.snap_data data)))));
         stats_lastUpdated := lastUpdated (Client.snap_data data) |}.

(** [Math.floor(x)] used as an array index: the index when the floor is a
    non-negative integer, nothing otherwise (the array then reads
    [undefined]). *)
Definition floor_index (x : float) : option nat :=
  match Prim2SF x with
  | S754_zero _ => Some 0%nat
  | S754_finite false m e =>
      Some (Z.to_nat (if 0 <=? e then Z.pos m * 2 ^ e else Z.pos m / 2 ^ (- e)))
  | _ => None
  end.

(** [getRandomEntry]; [random] is the value of [Math.random()].  [None] is
    the absence of an entry ([null] or [undefined]). *)
Definition getRandomEntry (w : Client.world) (random : float) (cat : option string)
  : M Client.state (option Entry) :=
  let* data := Client.loadKB w in
  let candidates :=
    match category_given cat with
    | Some c =>
        List.filter (fun e => String.eqb (toLowerCase (category e)) (toLowerCase c))
          (entries (Client.snap_data data))
    | None => entries (Client.snap_data data)
    end in
  match candidates with
  | [] => ret None
  | _ =>
      ret match floor_index
                  (random * Server.float_of_Z (Z.of_nat (length candidates)))%float with
          | Some i => nth_error candidates i
          | None => None
          end
  end.

End Stats.

(** ** The text search route of the search API ([POST /text-search]) *)

Module TextRoute.

Definition limit_or_20 (o : options) : Z :=
  match opt_limit o with Some l => l | None => 20 end.

(** The [try] block of the route after the validation. *)
Definition text_route (w : Server.world) (query : string) (o : options)
  : M Server.state Server.response :=
  let* results :=
    Server.textSearch w query
      {| opt_category := opt_category o; opt_dateFrom := opt_dateFrom o;
         opt_dateTo := opt_dateTo o; opt_limit := Some (limit_or_20 o);
         opt_includeSummary := None; opt_useApi := None |} in
  ret {| Server.status := 200;
         Server.body := EnvelopeBody
           {| env_summary := None;
              env_results := map Server.to_record results;
              env_total := length results;
              env_fallback := false; env_local := false |} |}.

(** The handler of [POST /text-search]. *)
Definition post_text_search (w : Server.world) (req : request) (s : Server.state)
  : Server.response * Server.state :=
  match req_query req with
  | None => ({| Server.status := 400; Server.body := ErrorBody "Query is required" |}, s)
  | Some query =>
      if negb (truthy query) || negb (truthy (trim query))
      then ({| Server.status := 400; Server.body := ErrorBody "Query is required" |}, s)
      else
        match text_route w query (req_options req) s with
        | (Normal r, s') => (r, s')
        | (Throw msg, s') => ({| Server.status := 500; Server.body := ErrorBody msg |}, s')
        end
  end.

End TextRoute.

(** ** The kanban API server: [POST /api/ai-search] and its keys *)

Module Kanban.

(** An entry as this route reads it: every property may be absent. *)
Record kb_entry := {
  k_title : option string;
  k_summary : option string;
  k_tags : option (list string);
  k_category : option string;
  k_addedAt : option string;
  k_source : option string;
  k_url : option string
}.

(** The knowledge-base file: unreadable (missing or not JSON), or a
    document whose [entries] may be absent. *)
Inductive kb_file :=
| KbUnreadable (msg : string)
| KbDocument (entries : option (list kb_entry)).

(** A profile of [auth.profiles] in the configuration. *)
Record profile := { provider : option string; profile_apiKey : option string }.

(** The configuration file as far as the two key readers look into it. *)
Record config := {
  memorySearch_apiKey : option string;
  profiles : list (string * profile)
}.

(** The credentials store: absent, not JSON, or a document with the key of
    the entry for OpenRouter, if any. *)
Inductive creds_file :=
| NoCreds
| BadCreds
| Creds (openrouter_apiKey : option string).

(** What the completion endpoint does: the request fails or the body is
    not JSON, or a JSON body arrives, with the content of its first choice
    if it has one. *)
Inductive llm_reply :=
| LlmFails (msg : string)
| LlmJson (content : option string).

Record llm_request := {
  llm_url : string;
  llm_model : string;
  llm_key : string;
  llm_system : string;
  llm_user : string
}.

(** The world around the route; [None] is a configuration file that cannot
    be read. *)
Record world := {
  w_kb : kb_file;
  w_config : option config;
  w_creds : creds_file;
  w_llm : llm_request -> llm_reply
}.

(** [v || null] for an optional string. *)
Definition or_null (o : option string) : option string :=
  match o with Some s => if truthy s then Some s else None | None => None end.

(** [getOpenAIKey]. *)
Definition getOpenAIKey (w : world) : option string :=
  match w_config w with
  | Some c => or_null (memorySearch_apiKey c)
  | None => None
  end.

(** The loop of [getOpenRouterKey] over the profiles. *)
Fixpoint first_openrouter (ps : list (string * profile)) : option string :=
  match ps with
  | [] => None
  | (_, val) :: ps' =>
      match provider val, or_null (profile_apiKey val) with
      | Some p, Some k => if String.eqb p "openrouter" then Some k else first_openrouter ps'
      | _, _ => first_openrouter ps'
      end
  end.

(** [getOpenRouterKey]. *)
Definition getOpenRouterKey (w : world) : option string :=
  match w_config w with
  | None => None
  | Some c =>
      match first_openrouter (profiles c) with
      | Some k => Some k
      | None =>
          match w_creds w with
          | Creds k => or_null k
          | _ => None
          end
      end
  end.

Record ai_request := {
  ai_query : option string;
  ai_category : option string;
  ai_dateFrom : option string;
  ai_dateTo : option string
}.

Inductive ai_body :=
| AiError (error : string)
| AiAnswer (summary : string) (results : list kb_entry) (totalMatches : nat).

Record ai_response := { ai_status : Z; ai_body_of : ai_body }.

Record scored := { entry : kb_entry; score : Z }.

(** [e.addedAt >= dateFrom]: false without [addedAt]. *)
Definition added_from (dateFrom : string) (e : kb_entry) : bool :=
  match k_addedAt e with Some d => String.leb dateFrom d | None => false end.

(** [e.addedAt <= dateTo + 'T23:59:59Z']. *)
Definition added_to (dateTo : string) (e : kb_entry) : bool :=
  match k_addedAt e with
  | Some d => String.leb d (dateTo ++ "T23:59:59Z")
  | None => false
  end.

(** The three filters of the route. *)
Definition filter_entries (req : ai_request) (es : list kb_entry) : list kb_entry :=
  let es :=
    if truthy_opt (ai_category req)
    then List.filter (fun e => Stats.same_value (k_category e) (ai_category req)) es
    else es in
  let es :=
    if truthy_opt (ai_dateFrom req)
    then List.filter (added_from (or_empty (ai_dateFrom req))) es
    else es in
  if truthy_opt (ai_dateTo req)
  then List.filter (added_to (or_empty (ai_dateTo req))) es
  else es.

(** The text that the terms are looked up in. *)
Definition entry_text (e : kb_entry) : string :=
  toLowerCase (or_empty (k_title e) ++ " " ++ or_empty (k_summary e) ++ " "
               ++ join_sp (match k_tags e with Some t => t | None => [] end)).

(** The body of the loop over the terms. *)
Definition term_score (text titleLower : string) (score : Z) (term : string) : Z :=
  let score := if includes text term then score + 1 else score in
  if includes titleLower term then score + 2 else score.

(** The callback of [entries.map]. *)
Definition score_entry (queryTerms : list string) (e : kb_entry) : scored :=
  {| entry := e;
     score := fold_left (term_score (entry_text e) (toLowerCase (or_empty (k_title e))))
                queryTerms 0 |}.

Definition after (a b : scored) : bool := 0 <? score b - score a.

(** The matches of the route: scored, filtered, sorted, and cut at 30. *)
Definition matches (query : string) (es : list kb_entry) : list scored :=
  let queryTerms := split_ws (toLowerCase query) in
  firstn 30
    (sort after
       (List.filter (fun s => 0 <? score s) (map (score_entry queryTerms) es))).

Definition nl : string := String (ascii_of_nat 10) EmptyString.

(** One block of the context. *)
Definition context_block (i : nat) (s : scored) : string :=
  let e := entry s in
  "[" ++ Display.show_nat (i + 1) ++ "] " ++ template_opt (k_title e) ++ nl
  ++ (if truthy_opt (k_summary e) then or_empty (k_summary e) else "No summary") ++ nl
  ++ "Source: " ++ (if truthy_opt (k_source e) then or_empty (k_source e) else "unknown")
  ++ " | " ++ (if truthy_opt (k_addedAt e) then or_empty (k_addedAt e) else "unknown date")
  ++ nl
  ++ "URL: " ++ (if truthy_opt (k_url e) then or_empty (k_url e) else "N/A").

Fixpoint context_blocks (i : nat) (l : list scored) : list string :=
  match l with
  | [] => []
  | s :: l' => context_block i s :: context_blocks (S i) l'
  end.

Definition system_prompt : string :=
  "You are a GenAI knowledge base assistant. Answer the user's question using ONLY the provided KB entries. Be concise, direct, and cite entry numbers [1], [2] etc. If no entries are relevant, say so. Format with markdown.".

(** The request that the route sends with the key [apiKey]. *)
Definition build_request (openrouter : bool) (apiKey query : string) (scored : list scored)
  : llm_request :=
  let context := Display.join (nl ++ nl) (context_blocks 0 scored) in
  {| llm_url := if openrouter then "https://openrouter.ai/api/v1/chat/completions"
                else "https://api.openai.com/v1/chat/completions";
     llm_model := if openrouter then "openai/gpt-4.1-mini" else "gpt-4.1-mini";
     llm_key := apiKey;
     llm_system := system_prompt;
     llm_user := "Question: " ++ query ++ nl ++ nl ++ "Knowledge Base entries:" ++ nl
                 ++ (if truthy context then context else "No matching entries found.") |}.

(** The handler of [POST /api/ai-search]. *)
Definition ai_search (w : world) (req : ai_request) : ai_response :=
  match or_null (ai_query req) with
  | None => {| ai_status := 400; ai_body_of := AiError "Query required" |}
  | Some query =>
      match w_kb w with
      | KbUnreadable msg => {| ai_status := 500; ai_body_of := AiError msg |}
      | KbDocument entries =>
          let entries := match entries with Some es => es | None => [] end in
          let scored := matches query (filter_entries req entries) in
          let answer (openrouter : bool) (apiKey : string) :=
            match w_llm w (build_request openrouter apiKey query scored) with
            | LlmFails msg => {| ai_status := 500; ai_body_of := AiError msg |}
            | LlmJson content =>
                {| ai_status := 200;
                   ai_body_of :=
                     AiAnswer
                       (match or_null content with
                        | Some c => c
                        | None => "No summary generated."
                        end)
                       (map entry (firstn 10 scored))
                       (length scored) |}
            end in
          match getOpenRouterKey w with
          | Some apiKey => answer true apiKey
          | None =>
              match getOpenAIKey w with
              | Some apiKey => answer false apiKey
              | None => {| ai_status := 500;
                           ai_body_of := AiError "No API key configured" |}
              end
          end
      end
  end.

End Kanban.

(** ** More concrete data for the examples *)

Module MoreFixtures.
Import Fixtures.

Definition r1 : result_record := {| rec_entry := e1; relevance := Int 100 |}.
Definition r2 : result_record := {| rec_entry := e2; relevance := Int 0 |}.

(** Two envelopes of six results that differ in the sixth. *)
Definition env6 : envelope :=
  {| env_summary := None; env_results := [r1; r2; r1; r2; r1; r1];
     env_total := 6; env_fallback := true; env_local := false |}.

Definition env6' : envelope :=
  {| env_summary := None; env_results := [r1; r2; r1; r2; r1; r2];
     env_total := 6; env_fallback := true; env_local := false |}.

Definition plain_format : Display.format_options :=
  {| Display.fo_query := Some "karpathy"; Display.fo_format := None;
     Display.fo_includeUrls := None |}.

(** A stand-in for the printing of binary64 values: the rounded values that
    [formatResults] prints here are whole numbers. *)
Definition show_whole (f : float) : string :=
  match Prim2SF f with
  | S754_finite s m e =>
      (if s then "-" else "")
      ++ Display.show_Z (if 0 <=? e then Z.pos m * 2 ^ e else Z.pos m / 2 ^ (- e))
  | S754_zero _ => "0"
  | _ => "NaN"
  end.

End MoreFixtures.

(** ** Data for the examples of the route [POST /api/ai-search] *)

Module KanbanFixtures.
Import Kanban.

Definition k1 : kb_entry :=
  {| k_title := Some "Attention Is All You Need";
     k_summary := Some "The transformer architecture";
     k_tags := Some ["nlp"; "transformers"];
     k_category := Some "papers";
     k_addedAt := Some "2024-03-01T10:00:00Z";
     k_source := Some "arxiv";
     k_url := Some "https://arxiv.org/abs/1706.03762" |}.

(** An entry with neither a title nor a date. *)
Definition k2 : kb_entry :=
  {| k_title := None;
     k_summary := Some "Scaling laws for language models";
     k_tags := None;
     k_category := Some "papers";
     k_addedAt := None;
     k_source := None;
     k_url := None |}.

Definition kconfig : config :=
  {| memorySearch_apiKey := None;
     profiles := [("openrouter:default",
                   {| provider := Some "openrouter"; profile_apiKey := Some "sk-or" |})] |}.

Definition kw : world :=
  {| w_kb := KbDocument (Some [k1; k2]);
     w_config := Some kconfig;
     w_creds := NoCreds;
     w_llm := fun _ => LlmJson (Some "See [1].") |}.

Definition kreq (query : string) : ai_request :=
  {| ai_query := Some query; ai_category := None;
     ai_dateFrom := None; ai_dateTo := None |}.

Definition kreq_from (query dateFrom : string) : ai_request :=
  {| ai_query := Some query; ai_category := Some "papers";
     ai_dateFrom := Some dateFrom; ai_dateTo := None |}.

End KanbanFixtures.

(** ** Notions used to state the further properties *)

(** The scores fall along the list. *)
Definition descending (l : list Client.scored) : Prop :=
  StronglySorted (fun a b => Client.score b <= Client.score a) l.

(** The inputs of the calls of the embeddings endpoint in a trace. *)
Definition call_inputs (calls : list Server.event) : list (list string) :=
  flat_map (fun e => match e with Server.EmbedCall input => [input] | _ => [] end) calls.

(** The calls of a trace that leave the process or write the cache file. *)
Definition outside_calls (calls : list Server.event) : list Server.event :=
  List.filter (fun e => match e with Server.ReadKB => false | _ => true end) calls.

(** No character of the string is a backslash. *)
Fixpoint no_backslash (s : string) : bool :=
  match s with
  | EmptyString => true
  | String c s' => negb (Ascii.eqb c Display.backslash) && no_backslash s'
  end.

(** The sources of the entries that have one. *)
Definition named_sources (es : list Entry) : list string :=
  flat_map (fun e => match source e with
                     | Some s => if truthy s then [s] else []
                     | None => []
                     end) es.

(** * Properties *)

(** ** Strings *)

Section StringFacts.

Lemma prefix_empty (s : string) : String.prefix "" s = true.
Proof. destruct s; reflexivity. Qed.

Lemma includes_empty (s : string) : includes s "" = true.
Proof. destruct s; reflexivity. Qed.

Lemma prefix_append (t : string) :
  forall s u, String.prefix t s = true -> String.prefix t (s ++ u) = true.
Proof.
  induction t as [|c t IH]; intros s u H.
  - apply prefix_empty.
  - destruct s as [|d s]; simpl in *; [discriminate|].
    destruct (ascii_dec c d); [apply IH; exact H | discriminate].
Qed.

Lemma includes_append (s t u : string) :
  includes s t = true -> includes (s ++ u) t = true.
Proof.
  induction s as [|c s IH]; intros H.
  - simpl in H. rewrite orb_false_r in H.
    destruct t; [apply includes_empty | discriminate].
  - simpl in H. apply orb_true_iff in H. destruct H as [H|H].
    + change (String c s ++ u) with (String c (s ++ u)).
      cbn [includes]. apply orb_true_iff. left.
      apply (prefix_append t (String c s) u H).
    + change (String c s ++ u) with (String c (s ++ u)).
      cbn [includes]. apply orb_true_iff. right. apply IH, H.
Qed.

Lemma toLowerCase_append (s u : string) :
  toLowerCase (s ++ u) = toLowerCase s ++ toLowerCase u.
Proof. induction s as [|c s IH]; simpl; [reflexivity | now rewrite IH]. Qed.

(** A word found in the lowered title is found in the entry text, which
    starts with the lowered title. *)
Lemma title_in_entry_text (e : Entry) (word : string) :
  includes (toLowerCase (title e)) word = true ->
  includes (Client.entry_text e) word = true.
Proof.
  intros H. unfold Client.entry_text.
  rewrite toLowerCase_append. apply includes_append, H.
Qed.

End StringFacts.

(** ** Sorting, filtering and slicing *)

Section ListFacts.
Context {A : Type}.

Lemma sort_insert_perm (after : A -> A -> bool) (x : A) (l : list A) :
  Permutation (sort_insert after x l) (x :: l).
Proof.
  induction l as [|y l IH]; simpl; [reflexivity|].
  destruct (after x y); [|reflexivity].
  rewrite IH. apply perm_swap.
Qed.

Lemma sort_perm (after : A -> A -> bool) (l : list A) :
  Permutation (sort after l) l.
Proof.
  induction l as [|x l IH]; simpl; [reflexivity|].
  rewrite sort_insert_perm. now constructor.
Qed.

Lemma sort_length (after : A -> A -> bool) (l : list A) :
  length (sort after l) = length l.
Proof. apply Permutation_length, sort_perm. Qed.

Lemma sort_In (after : A -> A -> bool) (l : list A) (x : A) :
  In x (sort after l) <-> In x l.
Proof.
  split; apply Permutation_in; [|symmetry]; apply sort_perm.
Qed.

Lemma filter_perm (p : A -> bool) (l l' : list A) :
  Permutation l l' -> Permutation (List.filter p l) (List.filter p l').
Proof.
  induction 1 as [|x l l' _ IH|x y l|l l' l'' _ IH1 _ IH2]; simpl.
  - reflexivity.
  - destruct (p x); [now constructor | exact IH].
  - destruct (p x), (p y); try reflexivity. apply perm_swap.
  - now transitivity (List.filter p l').
Qed.

Lemma filter_all (p : A -> bool) (l : list A) :
  (forall x, In x l -> p x = true) -> List.filter p l = l.
Proof.
  induction l as [|x l IH]; intros H; simpl; [reflexivity|].
  rewrite (H x (or_introl eq_refl)). f_equal. apply IH.
  intros y Hy. apply H. now right.
Qed.

Lemma filter_comm (p q : A -> bool) (l : list A) :
  List.filter p (List.filter q l) = List.filter q (List.filter p l).
Proof.
  induction l as [|x l IH]; simpl; [reflexivity|].
  destruct (p x) eqn:Hp, (q x) eqn:Hq; simpl; rewrite ?Hp, ?Hq, IH; reflexivity.
Qed.

Lemma slice0_length (limit : Z) (l : list A) :
  0 <= limit -> length (slice0 limit l) = Nat.min (Z.to_nat limit) (length l).
Proof.
  intros H. unfold slice0.
  destruct (Z.ltb_spec limit 0); [lia|]. apply length_firstn.
Qed.

Lemma firstn_In (n : nat) (l : list A) (x : A) :
  In x (firstn n l) -> In x l.
Proof.
  intros H. rewrite <- (firstn_skipn n l). apply in_or_app. now left.
Qed.

Lemma slice0_In (limit : Z) (l : list A) (x : A) :
  In x (slice0 limit l) -> In x l.
Proof.
  unfold slice0. destruct (limit <? 0); apply firstn_In.
Qed.

Lemma slice0_all (limit : Z) (l : list A) :
  Z.of_nat (length l) <= limit -> slice0 limit l = l.
Proof.
  intros H. unfold slice0.
  destruct (Z.ltb_spec limit 0); [lia|]. apply firstn_all2. lia.
Qed.

(** A slice shorter than the limit is the whole array. *)
Lemma slice0_short (limit : Z) (l : list A) :
  Z.of_nat (length (slice0 limit l)) < limit -> slice0 limit l = l.
Proof.
  intros H. destruct (Z.ltb_spec limit 0) as [Hneg|Hpos]; [lia|].
  rewrite slice0_length in H by exact Hpos.
  apply slice0_all. lia.
Qed.

End ListFacts.

(** ** The lexical scorer of [localSearch] *)

Section LexicalScorer.

Lemma fold_count_word (text : string) (queryWords : list string) :
  forall (n : Z) (ms : list string),
    fold_left (Client.count_word text) queryWords (n, ms)
    = (n + Spec.word_hits text queryWords,
       (ms ++ List.filter (includes text) queryWords)%list).
Proof.
  unfold Spec.word_hits.
  induction queryWords as [|word ws IH]; intros n ms; simpl.
  - now rewrite Z.add_0_r, app_nil_r.
  - unfold Client.count_word at 2. destruct (includes text word); simpl.
    + rewrite IH, <- app_assoc. simpl. f_equal. lia.
    + apply IH.
Qed.

(** The score that [score_entry] accumulates is the sum of its five
    terms. *)
Lemma score_entry_sum (w : Client.world) (queryLower : string)
    (queryWords : list string) (e : Entry) :
  Client.score (Client.score_entry w queryLower queryWords e)
  = Spec.word_hits (Client.entry_text e) queryWords
    + Spec.title_boost (toLowerCase (title e)) queryLower queryWords
    + Spec.summary_boost (summary e) queryLower
    + Spec.source_boost (source e) queryLower
    + Client.date_boost w (date e).
Proof.
  unfold Client.score_entry. rewrite fold_count_word.
  unfold Spec.title_boost, Spec.summary_boost, Spec.source_boost, opt_includes_lower.
  cbn [Client.score].
  change (forallb (fun w0 : string => includes (toLowerCase (title e)) w0) queryWords)
    with (forallb (includes (toLowerCase (title e))) queryWords).
  destruct (includes (toLowerCase (title e)) queryLower);
    [|destruct (forallb _ queryWords)];
    destruct (summary e) as [sm|]; try destruct (includes (toLowerCase sm) queryLower);
    destruct (source e) as [sr|]; try destruct (includes (toLowerCase sr) queryLower);
    lia.
Qed.

Lemma score_entry_entry (w : Client.world) (queryLower : string)
    (queryWords : list string) (e : Entry) :
  Client.entry (Client.score_entry w queryLower queryWords e) = e.
Proof.
  unfold Client.score_entry. now destruct (fold_left _ _ _).
Qed.

Lemma fold_text_hits (text : string) (queryWords : list string) :
  forall n : Z,
    fold_left (fun score word => if includes text word then score + 1 else score)
              queryWords n
    = n + Spec.word_hits text queryWords.
Proof.
  unfold Spec.word_hits.
  induction queryWords as [|word ws IH]; intros n; simpl; [lia|].
  destruct (includes text word); simpl; rewrite IH; lia.
Qed.

Lemma text_raw_sum (queryLower : string) (queryWords : list string) (e : Entry) :
  Server.text_raw queryLower queryWords e
  = Spec.word_hits (Server.entry_text e) queryWords
    + Spec.text_title_boost (toLowerCase (title e)) queryLower
    + Spec.summary_boost (summary e) queryLower.
Proof.
  unfold Server.text_raw. rewrite fold_text_hits.
  unfold Spec.text_title_boost, Spec.summary_boost, opt_includes_lower.
  destruct (includes (toLowerCase (title e)) queryLower);
    destruct (summary e) as [sm|]; try destruct (includes (toLowerCase sm) queryLower);
    lia.
Qed.

Lemma word_hits_nonneg (text : string) (queryWords : list string) :
  0 <= Spec.word_hits text queryWords.
Proof. unfold Spec.word_hits. lia. Qed.

Lemma word_hits_none (text : string) (queryWords : list string) :
  (forall t, In t queryWords -> includes text t = false) ->
  Spec.word_hits text queryWords = 0.
Proof.
  unfold Spec.word_hits.
  induction queryWords as [|t ws IH]; intros H; simpl; [reflexivity|].
  rewrite (H t (or_introl eq_refl)). apply IH.
  intros u Hu. apply H. now right.
Qed.

Lemma title_boost_nonneg (t q : string) (ws : list string) :
  0 <= Spec.title_boost t q ws.
Proof.
  unfold Spec.title_boost. destruct (includes t q); [lia|].
  destruct (forallb _ ws); lia.
Qed.

Lemma summary_boost_nonneg (o : option string) (q : string) :
  0 <= Spec.summary_boost o q.
Proof. unfold Spec.summary_boost. destruct o as [s|]; [destruct (includes _ q)|]; lia. Qed.

Lemma source_boost_nonneg (o : option string) (q : string) :
  0 <= Spec.source_boost o q.
Proof. unfold Spec.source_boost. destruct o as [s|]; [destruct (includes _ q)|]; lia. Qed.

Lemma date_boost_range (w : Client.world) (d : option string) :
  0 <= Client.date_boost w d <= 2.
Proof.
  unfold Client.date_boost. destruct d as [d|]; [|lia].
  destruct (truthy d); [|lia].
  destruct (Client.w_dateParse w d) as [t|]; [|lia].
  destruct (_ <? 30 * _); [lia|]. destruct (_ <? 90 * _); lia.
Qed.

(** No boost without a usable date, or from 90 days of age on. *)
Lemma date_boost_zero (w : Client.world) (d : option string) :
  Client.date_boost w d = 0 <->
  match d with
  | Some d =>
      truthy d = false \/
      match Client.w_dateParse w d with
      | Some entryDate => 90 * Client.day_ms <= Client.w_now w - entryDate
      | None => True
      end
  | None => True
  end.
Proof.
  unfold Client.date_boost. destruct d as [d|]; [|tauto].
  destruct (truthy d); [|intuition].
  destruct (Client.w_dateParse w d) as [t|]; [|intuition].
  unfold Client.day_ms.
  destruct (Z.ltb_spec (Client.w_now w - t) (30 * (1000 * 60 * 60 * 24)));
    [split; [discriminate | intros [?|?]; [discriminate | lia]]|].
  destruct (Z.ltb_spec (Client.w_now w - t) (90 * (1000 * 60 * 60 * 24)));
    [split; [discriminate | intros [?|?]; [discriminate | lia]]|].
  split; [right; lia | reflexivity].
Qed.

Lemma score_entry_nonneg (w : Client.world) (ql : string) (ws : list string) (e : Entry) :
  0 <= Client.score (Client.score_entry w ql ws e).
Proof.
  rewrite score_entry_sum.
  pose proof (word_hits_nonneg (Client.entry_text e) ws).
  pose proof (title_boost_nonneg (toLowerCase (title e)) ql ws).
  pose proof (summary_boost_nonneg (summary e) ql).
  pose proof (source_boost_nonneg (source e) ql).
  pose proof (date_boost_range w (date e)). lia.
Qed.

(** With a token that is nowhere in the entry text, the tokens are not all
    in the title. *)
Lemma not_all_in_title (e : Entry) (ws : list string) :
  ws <> [] ->
  (forall t, In t ws -> includes (Client.entry_text e) t = false) ->
  forallb (includes (toLowerCase (title e))) ws = false.
Proof.
  intros Hne Hnone. destruct ws as [|t ws]; [congruence|].
  simpl. destruct (includes (toLowerCase (title e)) t) eqn:Ht; [|reflexivity].
  apply title_in_entry_text in Ht.
  rewrite (Hnone t (or_introl eq_refl)) in Ht. discriminate.
Qed.

End LexicalScorer.

(** ** [localSearch] as a whole *)

Section LocalSearch.
Import Fixtures.

Lemma localSearch_run (w : Client.world) (query : string) (o : options) (s : Client.state) :
  Client.localSearch w query o s
  = match Client.loadKB w s with
    | (Normal snap, s') =>
        (Normal (slice0 (Client.limit_or_10 o)
                   (Client.local_ranking w query o (Client.snap_data snap))), s')
    | (Throw msg, s') => (Throw msg, s')
    end.
Proof.
  unfold Client.localSearch, JS.bind, JS.ret.
  destruct (Client.loadKB w s) as [[snap|msg] s']; reflexivity.
Qed.

Lemma category_filter_In (c : option string) (l : list Client.scored) (r : Client.scored) :
  In r (Client.category_filter c l) -> In r l.
Proof.
  unfold Client.category_filter. destruct (category_given c); [|tauto].
  intros H. apply filter_In in H. tauto.
Qed.

Lemma local_ranking_In (w : Client.world) (query : string) (o : options) (data : KB)
    (r : Client.scored) :
  In r (Client.local_ranking w query o data) <->
  In r (Client.category_filter (opt_category o)
          (map (Client.score_entry w (toLowerCase query)
                  (Client.query_words (toLowerCase query))) (entries data)))
  /\ 0 < Client.score r.
Proof.
  unfold Client.local_ranking. rewrite filter_In, sort_In, Z.ltb_lt. tauto.
Qed.

Lemma empty_query_score (w : Client.world) (e : Entry) :
  Client.score (Client.score_entry w "" [] e)
  = 10 + (match summary e with Some _ => 3 | None => 0 end)
       + (match source e with Some _ => 2 | None => 0 end)
       + Client.date_boost w (date e).
Proof.
  rewrite score_entry_sum.
  unfold Spec.word_hits, Spec.title_boost, Spec.summary_boost, Spec.source_boost.
  rewrite includes_empty. simpl.
  destruct (summary e) as [sm|]; [rewrite includes_empty|];
    (destruct (source e) as [sr|]; [rewrite includes_empty|]); reflexivity.
Qed.

Lemma empty_query_score_ge (w : Client.world) (e : Entry) :
  10 <= Client.score (Client.score_entry w "" [] e).
Proof.
  rewrite empty_query_score. pose proof (date_boost_range w (date e)).
  destruct (summary e), (source e); lia.
Qed.

End LocalSearch.

(** ** The claims on the lexical scorer *)

Section LexicalClaims.
Import Fixtures.

(** C2, as the specification states it, fails: on 2024-06-02 the entry
    "Weather report", dated 2024-06-01, shares nothing with the query
    "karpathy", and still scores 2, the date boost. *)
Lemma recent_entry_scores_without_match :
  let queryLower := toLowerCase "karpathy" in
  let queryWords := Client.query_words queryLower in
  (forall t, In t queryWords -> includes (Client.entry_text e2) t = false)
  /\ includes (toLowerCase (title e2)) queryLower = false
  /\ opt_includes_lower (summary e2) queryLower = false
  /\ opt_includes_lower (source e2) queryLower = false
  /\ Client.score (Client.score_entry cw_recent queryLower queryWords e2) = 2.
Proof.
  repeat split. intros t [<-|[]]. reflexivity.
Qed.

(** C2 (amended): the lexical score of a query against an entry is never
    negative; it is 0 whenever the query has a token of length greater than
    2, no such token occurs in the entry's searchable text, the full
    normalised query occurs neither in the title nor in the summary nor in
    the source, and the entry gets no date boost. *)
Theorem lexical_score_zero_without_match :
  forall (w : Client.world) (query : string) (e : Entry),
    let queryLower := toLowerCase query in
    let queryWords := Client.query_words queryLower in
    0 <= Client.score (Client.score_entry w queryLower queryWords e)
    /\ (queryWords <> [] ->
        (forall t, In t queryWords -> includes (Client.entry_text e) t = false) ->
        includes (toLowerCase (title e)) queryLower = false ->
        opt_includes_lower (summary e) queryLower = false ->
        opt_includes_lower (source e) queryLower = false ->
        Client.date_boost w (date e) = 0 ->
        Client.score (Client.score_entry w queryLower queryWords e) = 0).
Proof.
  intros w query e queryLower queryWords. split.
  - apply score_entry_nonneg.
  - intros Hne Hnone Htitle Hsummary Hsource Hdate.
    rewrite score_entry_sum, Hdate, (word_hits_none _ _ Hnone).
    unfold Spec.title_boost. rewrite Htitle, (not_all_in_title e _ Hne Hnone).
    unfold Spec.summary_boost, Spec.source_boost.
    unfold opt_includes_lower in Hsummary, Hsource.
    destruct (summary e) as [sm|]; [rewrite Hsummary|];
      (destruct (source e) as [sr|]; [rewrite Hsource|]); reflexivity.
Qed.

Lemma lexical_score_zero_without_match_witness :
  Client.score
    (Client.score_entry cw0 (toLowerCase "karpathy")
       (Client.query_words (toLowerCase "karpathy")) e2) = 0.
Proof.
  apply (proj2 (lexical_score_zero_without_match cw0 "karpathy" e2)).
  - discriminate.
  - intros t [<-|[]]. reflexivity.
  - reflexivity.
  - reflexivity.
  - reflexivity.
  - reflexivity.
Defined.

(** C4, as the specification states it, fails on the server's [textSearch]:
    the title of the first entry contains the query "karpathy", and the
    score before normalisation is 1 + 5, where the stated boosts give
    1 + 10. *)
Lemma text_search_title_boost_is_five :
  let queryLower := toLowerCase "karpathy" in
  let queryWords := Server.query_words queryLower in
  includes (toLowerCase (title e1)) queryLower = true
  /\ Server.text_raw queryLower queryWords e1 = 6
  /\ Spec.word_hits (Server.entry_text e1) queryWords
     + Spec.title_boost (toLowerCase (title e1)) queryLower queryWords
     + Spec.summary_boost (summary e1) queryLower
     + Spec.source_boost (source e1) queryLower = 11.
Proof. repeat split. Qed.

(** C4 (amended): in the search agent's [localSearch] the scorer adds
    exactly 10 when the full normalised query is a substring of the lowered
    title, otherwise exactly 5 when every surviving token is; independently
    it adds exactly 3 when the full query is a substring of the summary and
    exactly 2 when it is a substring of the source (next to one point per
    matching token and the date boost).  In the server's [textSearch] the
    scorer adds exactly 5 for the full query in the title and exactly 3 for
    the summary, has no boost for the tokens or the source, and divides the
    sum by the number of tokens plus 5. *)
Theorem lexical_boosts :
  forall (w : Client.world) (query : string) (e : Entry),
    let queryLower := toLowerCase query in
    (let queryWords := Client.query_words queryLower in
     Client.score (Client.score_entry w queryLower queryWords e)
     = Spec.word_hits (Client.entry_text e) queryWords
       + Spec.title_boost (toLowerCase (title e)) queryLower queryWords
       + Spec.summary_boost (summary e) queryLower
       + Spec.source_boost (source e) queryLower
       + Client.date_boost w (date e))
    /\ (let queryWords := Server.query_words queryLower in
        Server.text_raw queryLower queryWords e
        = Spec.word_hits (Server.entry_text e) queryWords
          + Spec.text_title_boost (toLowerCase (title e)) queryLower
          + Spec.summary_boost (summary e) queryLower
        /\ Server.score (Server.text_score queryLower queryWords e)
           = (Server.float_of_Z (Server.text_raw queryLower queryWords e)
              / Server.float_of_Z (Z.of_nat (length queryWords) + 5))%float).
Proof.
  intros w query e queryLower. split; [apply score_entry_sum|].
  split; [apply text_raw_sum | reflexivity].
Qed.

(** C10: for the empty query every entry scores at least 10 (10 for the
    title, 3 more with a summary, 2 more with a source, and the date boost),
    so every entry passes the filter on the score, and [localSearch] returns
    min(limit, number of entries that pass the category filter) entries. *)
Theorem empty_query_matches_everything :
  forall (w : Client.world) (o : options) (s s' : Client.state) (snap : Client.snapshot),
    Client.loadKB w s = (Normal snap, s') ->
    0 <= Client.limit_or_10 o ->
    (forall e : Entry,
        Client.score (Client.score_entry w "" [] e)
        = 10 + (match summary e with Some _ => 3 | None => 0 end)
             + (match source e with Some _ => 2 | None => 0 end)
             + Client.date_boost w (date e)
        /\ 10 <= Client.score (Client.score_entry w "" [] e))
    /\ exists rs : list Client.scored,
        Client.localSearch w "" o s = (Normal rs, s')
        /\ Forall (fun r => 10 <= Client.score r) rs
        /\ length rs
           = Nat.min (Z.to_nat (Client.limit_or_10 o))
               (length (Client.category_filter (opt_category o)
                          (map (Client.score_entry w "" []) (entries (Client.snap_data snap))))).
Proof.
  intros w o s s' snap Hload Hlimit. split.
  { intros e. split; [apply empty_query_score | apply empty_query_score_ge]. }
  eexists. rewrite localSearch_run, Hload. split; [reflexivity|].
  assert (Hall : forall r,
             In r (Client.category_filter (opt_category o)
                     (map (Client.score_entry w "" []) (entries (Client.snap_data snap)))) ->
             10 <= Client.score r).
  { intros r Hr. apply category_filter_In, in_map_iff in Hr.
    destruct Hr as [e [<- _]]. apply empty_query_score_ge. }
  split.
  - apply List.Forall_forall. intros r Hr.
    apply slice0_In, local_ranking_In in Hr. apply Hall, Hr.
  - rewrite slice0_length by exact Hlimit. f_equal.
    unfold Client.local_ranking.
    change (Client.query_words (toLowerCase "")) with (@nil string).
    change (toLowerCase "") with "".
    rewrite filter_all, sort_length; [reflexivity|].
    intros r Hr. apply sort_In, Hall in Hr. apply Z.ltb_lt. lia.
Qed.

Lemma empty_query_matches_everything_witness :
  exists rs : list Client.scored,
    Client.localSearch cw0 "" (with_category "misc" 5) Client.initial
    = (Normal rs,
       {| Client.kbCache := Some {| Client.snap_ref := 0; Client.snap_data := kb0 |};
          Client.kbLastModified := Some 1000; Client.parses := 1 |})
    /\ Forall (fun r => 10 <= Client.score r) rs
    /\ length rs = 1%nat.
Proof.
  apply (proj2 (empty_query_matches_everything cw0 (with_category "misc" 5)
                  Client.initial _ _ eq_refl ltac:(discriminate))).
Defined.

End LexicalClaims.

(** ** The entry store *)

Section EntryStore.
Import Fixtures.

(** After a call of [loadKB] that returned, the cache holds the returned
    snapshot and the modification time of the file that was seen. *)
Lemma loadKB_returns (w : Client.world) (s s' : Client.state) (snap : Client.snapshot) :
  Client.loadKB w s = (Normal snap, s') ->
  exists f, Client.w_file w = Some f
            /\ Client.kbCache s' = Some snap
            /\ Client.kbLastModified s' = Some (mtime f).
Proof.
  unfold Client.loadKB. destruct (Client.w_file w) as [f|]; [|discriminate].
  intros H. exists f. split; [reflexivity|].
  assert (Hreload :
            match content f with
            | Malformed => (Throw "Failed to load KB: Unexpected token in JSON", s)
            | Json kb =>
                (Normal {| Client.snap_ref := Client.parses s; Client.snap_data := kb |},
                 {| Client.kbCache :=
                      Some {| Client.snap_ref := Client.parses s; Client.snap_data := kb |};
                    Client.kbLastModified := Some (mtime f);
                    Client.parses := S (Client.parses s) |})
            end = (Normal snap, s') ->
            Client.kbCache s' = Some snap /\ Client.kbLastModified s' = Some (mtime f)).
  { destruct (content f); [discriminate|]. intros [= <- <-]. now split. }
  destruct (Client.kbCache s) as [cached|] eqn:Hc; [|auto].
  destruct (Client.kbLastModified s) as [t|] eqn:Ht; [|auto].
  destruct (Z.eqb_spec (mtime f) t) as [->|_]; [|auto].
  injection H as <- <-. now split.
Qed.

(** Once [loadKBData] has returned a document, it returns that document
    again without touching anything. *)
Lemma loadKBData_kbData (w : Server.world) (s s1 : Server.state) (data : KB) :
  Server.loadKBData w s = (Normal data, s1) -> Server.kbData s1 = Some data.
Proof.
  unfold Server.loadKBData. destruct (Server.kbData s) as [d|] eqn:Hd.
  - intros [= <- <-]. exact Hd.
  - cbn. destruct (Server.w_kbFile w) as [f|]; [|discriminate].
    destruct (content f); [discriminate|]. intros [= <- <-]. reflexivity.
Qed.

Lemma loadKBData_cached (w : Server.world) (s : Server.state) (data : KB) :
  Server.kbData s = Some data -> Server.loadKBData w s = (Normal data, s).
Proof. intros H. unfold Server.loadKBData. now rewrite H. Qed.

(** C5, as the specification states it, fails on the server's
    [loadKBData]: the file was rewritten (another modification time, another
    content) between the two calls, and the second call still returns the
    first document. *)
Lemma loadKBData_keeps_first_document :
  Server.loadKBData sw_nokey s0 = (Normal kb0, s_loaded)
  /\ Server.w_kbFile sw_nokey = Some {| mtime := 1000; content := Json kb0 |}
  /\ Server.w_kbFile sw_changed = Some {| mtime := 2000; content := Json kb1 |}
  /\ Server.loadKBData sw_changed s_loaded = (Normal kb0, s_loaded)
  /\ entries kb1 <> entries kb0.
Proof. repeat split. discriminate. Qed.

(** C5 (amended): for two successive calls of the search agent's [loadKB],
    if the modification time of the file is unchanged between the calls
    then the second call returns the identical cached snapshot object
    without parsing again, and if it changed then the second call returns a
    snapshot of the new file content.  The server's [loadKBData] never
    looks at the file again: its second call returns the first document
    whatever happened to the file. *)
Theorem snapshot_reload :
  forall (w1 w2 : Client.world) (s s1 : Client.state) (snap1 : Client.snapshot)
         (f1 f2 : file)
         (sw1 sw2 : Server.world) (ss ss1 : Server.state) (data : KB),
    Client.loadKB w1 s = (Normal snap1, s1) ->
    Client.w_file w1 = Some f1 ->
    Client.w_file w2 = Some f2 ->
    Server.loadKBData sw1 ss = (Normal data, ss1) ->
    (mtime f2 = mtime f1 -> Client.loadKB w2 s1 = (Normal snap1, s1))
    /\ (mtime f2 <> mtime f1 ->
        forall kb, content f2 = Json kb ->
          exists snap2 s2,
            Client.loadKB w2 s1 = (Normal snap2, s2)
            /\ Client.snap_data snap2 = kb
            /\ Client.kbCache s2 = Some snap2
            /\ Client.parses s2 = S (Client.parses s1))
    /\ Server.loadKBData sw2 ss1 = (Normal data, ss1).
Proof.
  intros w1 w2 s s1 snap1 f1 f2 sw1 sw2 ss ss1 data Hload Hf1 Hf2 Hsrv.
  destruct (loadKB_returns _ _ _ _ Hload) as [f [Hf [Hcache Hmod]]].
  rewrite Hf1 in Hf. injection Hf as <-.
  repeat split.
  - intros Hsame. unfold Client.loadKB. rewrite Hf2, Hcache, Hmod, Hsame, Z.eqb_refl.
    reflexivity.
  - intros Hdiff kb Hkb. unfold Client.loadKB. rewrite Hf2, Hcache, Hmod, Hkb.
    destruct (Z.eqb_spec (mtime f2) (mtime f1)) as [E|_]; [contradiction|].
    do 2 eexists. repeat split.
  - apply loadKBData_cached, (loadKBData_kbData _ _ _ _ Hsrv).
Qed.

Lemma snapshot_reload_witness :
  (1000 = 1000 -> Client.loadKB cw0 cs_loaded = (Normal {| Client.snap_ref := 0; Client.snap_data := kb0 |}, cs_loaded))
  /\ (exists snap2 s2,
        Client.loadKB cw_changed cs_loaded = (Normal snap2, s2)
        /\ Client.snap_data snap2 = kb1
        /\ Client.kbCache s2 = Some snap2
        /\ Client.parses s2 = 2%nat)
  /\ Server.loadKBData sw_changed s_loaded = (Normal kb0, s_loaded).
Proof.
  split; [|split].
  - exact (proj1 (snapshot_reload cw0 cw0 Client.initial cs_loaded _ _ _
                    sw_nokey sw_changed s0 s_loaded kb0
                    eq_refl eq_refl eq_refl eq_refl)).
  - refine (proj1 (proj2 (snapshot_reload cw0 cw_changed Client.initial cs_loaded _ _ _
                            sw_nokey sw_changed s0 s_loaded kb0
                            eq_refl eq_refl eq_refl eq_refl)) _ kb1 eq_refl).
    discriminate.
  - exact (proj2 (proj2 (snapshot_reload cw0 cw_changed Client.initial cs_loaded _ _ _
                           sw_nokey sw_changed s0 s_loaded kb0
                           eq_refl eq_refl eq_refl eq_refl))).
Defined.

End EntryStore.

(** ** The server's searches *)

Section ServerSearch.

Lemma filter_filter {A : Type} (p q : A -> bool) (l : list A) :
  List.filter p (List.filter q l) = List.filter (fun x => q x && p x) l.
Proof.
  induction l as [|x l IH]; simpl; [reflexivity|].
  destruct (q x); simpl; [destruct (p x)|]; now rewrite IH.
Qed.

Lemma filter_true {A : Type} (l : list A) : List.filter (fun _ => true) l = l.
Proof. induction l as [|x l IH]; simpl; [reflexivity | now rewrite IH]. Qed.

Lemma filter_ext' {A : Type} (p q : A -> bool) (l : list A) :
  (forall x, p x = q x) -> List.filter p l = List.filter q l.
Proof.
  intros H. induction l as [|x l IH]; simpl; [reflexivity|].
  now rewrite H, IH.
Qed.

(** The three filters keep exactly the results whose entry passes. *)
Lemma apply_filters_passes (o : options) (l : list Server.scored) :
  Server.apply_filters o l
  = List.filter (fun r => Server.passes o (Server.entry r)) l.
Proof.
  unfold Server.apply_filters, Server.passes.
  destruct (category_given (opt_category o)) as [c|];
    destruct (opt_dateFrom o) as [dateFrom|]; try destruct (truthy dateFrom);
    destruct (opt_dateTo o) as [dateTo|]; try destruct (truthy dateTo);
    rewrite ?filter_filter;
    try (apply filter_ext'; intros r; cbn;
         rewrite ?andb_true_r, ?andb_true_l, ?andb_assoc; reflexivity);
    symmetry; apply filter_true.
Qed.

Lemma passes_without_category (o : options) (e : Entry) :
  Server.passes o e = true -> Server.passes (without_category o) e = true.
Proof.
  unfold Server.passes, without_category. cbn.
  destruct (category_given (opt_category o)); [|tauto].
  rewrite !andb_true_iff. tauto.
Qed.

Lemma textSearch_run (w : Server.world) (query : string) (o : options) (s : Server.state) :
  Server.textSearch w query o s
  = match Server.loadKBData w s with
    | (Normal data, s') =>
        (Normal (slice0 (Server.limit_or_10 o) (Server.text_ranking query o data)), s')
    | (Throw msg, s') => (Throw msg, s')
    end.
Proof.
  unfold Server.textSearch, JS.bind, JS.ret.
  destruct (Server.loadKBData w s) as [[data|msg] s']; reflexivity.
Qed.

Lemma getEmbeddingsCache_kbData (w : Server.world) (s : Server.state) (data : KB) :
  Server.kbData s = Some data ->
  Server.kbData (snd (Server.getEmbeddingsCache w s)) = Some data.
Proof.
  intros H. unfold Server.getEmbeddingsCache.
  destruct (Server.embeddingsCache s); [exact H|].
  assert (Hgen : Server.kbData
                   (snd (if Server.has_key w then Server.generateEmbeddings w s
                         else (Normal ∅, s))) = Some data).
  { destruct (Server.has_key w); [|exact H].
    unfold Server.generateEmbeddings, JS.bind.
    rewrite (loadKBData_cached w s data H).
    destruct (Server.embed_batches _ _ _ _ _). exact H. }
  destruct (Server.cacheFile s); try exact Hgen. exact H.
Qed.

Lemma cosineSimilarity_returns (a b : list float) :
  exists v, Server.cosineSimilarity a b = Normal v.
Proof.
  unfold Server.cosineSimilarity.
  destruct (fold_left _ _ _) as [[dotProduct normA] normB]. eexists. reflexivity.
Qed.

(** With a query embedding, every entry is scored, in the order of the
    snapshot; an entry without a cached embedding is scored 0. *)
Lemma vector_scores (cache : gmap Z (list float)) (q : list float) (es : list Entry) :
  exists results,
    Server.map_completion (Server.vector_score cache (Some q)) es = Normal results
    /\ map Server.entry results = es
    /\ Forall (fun r => cache !! id (Server.entry r) = None ->
                         Server.score r = 0%float) results.
Proof.
  induction es as [|e es [results [Hmap [Hentries Hzero]]]].
  - exists []. repeat split. constructor.
  - simpl. rewrite Hmap. unfold Server.vector_score at 1.
    destruct (cache !! id e) as [embedding|] eqn:Hc.
    + destruct (cosineSimilarity_returns q embedding) as [v ->].
      eexists. split; [reflexivity|]. split; [simpl; now rewrite Hentries|].
      constructor; [|exact Hzero]. simpl. congruence.
    + eexists. split; [reflexivity|]. split; [simpl; now rewrite Hentries|].
      constructor; [|exact Hzero]. reflexivity.
Qed.

(** The lexical branch of [semanticSearch]: without cached embeddings or
    without a key, the result is the one of [textSearch]. *)
Lemma semanticSearch_text_branch (w : Server.world) (query : string) (o : options)
    (s s1 s2 : Server.state) (data : KB) (cache : gmap Z (list float)) :
  Server.loadKBData w s = (Normal data, s1) ->
  Server.getEmbeddingsCache w s1 = (Normal cache, s2) ->
  size cache = 0%nat \/ Server.has_key w = false ->
  Server.semanticSearch w query o s = Server.textSearch w query o s2
  /\ Server.textSearch w query o s2
     = (Normal (slice0 (Server.limit_or_10 o) (Server.text_ranking query o data)), s2).
Proof.
  intros Hload Hcache Hbranch.
  assert (Hkb : Server.kbData s2 = Some data).
  { pose proof (getEmbeddingsCache_kbData w s1 data (loadKBData_kbData _ _ _ _ Hload)) as H.
    now rewrite Hcache in H. }
  split.
  - unfold Server.semanticSearch, JS.bind. rewrite Hload, Hcache.
    destruct Hbranch as [-> | ->]; [reflexivity | now rewrite orb_true_r].
  - rewrite textSearch_run, (loadKBData_cached w s2 data Hkb). reflexivity.
Qed.

(** The vector branch of [semanticSearch]. *)
Lemma semanticSearch_vector_branch (w : Server.world) (query : string) (o : options)
    (s s1 s2 : Server.state) (data : KB) (cache : gmap Z (list float))
    (q : list float) (rest : list (list float)) :
  Server.loadKBData w s = (Normal data, s1) ->
  Server.getEmbeddingsCache w s1 = (Normal cache, s2) ->
  size cache <> 0%nat ->
  Server.has_key w = true ->
  Server.w_embed w [query] = Server.Data (q :: rest) ->
  exists results,
    Server.semanticSearch w query o s
    = (Normal (slice0 (Server.limit_or_10 o) (Server.vector_ranking o results)),
       snd (Server.emit (Server.EmbedCall [query]) s2))
    /\ Server.map_completion (Server.vector_score cache (Some q)) (entries data)
       = Normal results
    /\ map Server.entry results = entries data
    /\ Forall (fun r => cache !! id (Server.entry r) = None ->
                         Server.score r = 0%float) results.
Proof.
  intros Hload Hcache Hsize Hkey Hembed.
  destruct (vector_scores cache q (entries data)) as [results [Hmap [Hentries Hzero]]].
  exists results. split; [|now repeat split].
  unfold Server.semanticSearch, JS.bind. rewrite Hload, Hcache, Hkey.
  destruct (Nat.eqb_spec (size cache) 0) as [E|_]; [contradiction|]. cbn [orb negb].
  unfold Server.getQueryEmbedding, JS.bind. rewrite Hkey, Hembed. cbn.
  rewrite Hmap. reflexivity.
Qed.

(** Whatever the options, [semanticSearch] either throws, or filters and
    slices one ranked list, which does not depend on the options; in the
    lexical branch the results without a positive score are dropped
    first. *)
Lemma semanticSearch_shape (w : Server.world) (query : string) (s : Server.state) :
  (exists msg s', forall o, Server.semanticSearch w query o s = (Throw msg, s'))
  \/ (exists (lexical : bool) (ranked : list Server.scored) s',
        forall o,
          Server.semanticSearch w query o s
          = (Normal (slice0 (Server.limit_or_10 o)
                       (List.filter
                          (fun r => negb lexical || PrimFloat.ltb 0%float (Server.score r))
                          (Server.apply_filters o ranked))), s')).
Proof.
  destruct (Server.loadKBData w s) as [[data|msg] s1] eqn:Hload.
  2:{ left. exists msg, s1. intros o.
      unfold Server.semanticSearch, JS.bind. now rewrite Hload. }
  destruct (Server.getEmbeddingsCache w s1) as [[cache|msg] s2] eqn:Hcache.
  2:{ left. exists msg, s2. intros o.
      unfold Server.semanticSearch, JS.bind. now rewrite Hload, Hcache. }
  destruct (Nat.eqb_spec (size cache) 0) as [Hsize|Hsize].
  { right. exists true, (sort Server.after
                           (map (Server.text_score (toLowerCase query)
                                   (Server.query_words (toLowerCase query)))
                                (entries data))), s2.
    intros o.
    destruct (semanticSearch_text_branch w query o s s1 s2 data cache Hload Hcache
                (or_introl Hsize)) as [-> ->].
    reflexivity. }
  destruct (Server.has_key w) eqn:Hkey.
  2:{ right. exists true, (sort Server.after
                             (map (Server.text_score (toLowerCase query)
                                     (Server.query_words (toLowerCase query)))
                                  (entries data))), s2.
      intros o.
      destruct (semanticSearch_text_branch w query o s s1 s2 data cache Hload Hcache
                  (or_intror Hkey)) as [-> ->].
      reflexivity. }
  assert (Hfail : forall msg,
             Server.getQueryEmbedding w query s2
             = (Throw msg, snd (Server.emit (Server.EmbedCall [query]) s2)) ->
             forall o, Server.semanticSearch w query o s
                       = (Throw msg, snd (Server.emit (Server.EmbedCall [query]) s2))).
  { intros msg Hq o. unfold Server.semanticSearch, JS.bind.
    rewrite Hload, Hcache, Hkey.
    destruct (Nat.eqb_spec (size cache) 0) as [E|_]; [contradiction|]. cbn [orb negb].
    now rewrite Hq. }
  destruct (Server.w_embed w [query]) as [| |message| |[|q rest]] eqn:Hembed;
    try (left; do 2 eexists; apply Hfail;
         unfold Server.getQueryEmbedding, JS.bind; rewrite Hkey, Hembed;
         reflexivity).
  right.
  destruct (vector_scores cache q (entries data)) as [results [Hmap _]].
  exists false, (sort Server.after results),
    (snd (Server.emit (Server.EmbedCall [query]) s2)).
  intros o.
  destruct (semanticSearch_vector_branch w query o s s1 s2 data cache q rest
              Hload Hcache Hsize Hkey Hembed) as [results' [-> [Hmap' _]]].
  rewrite Hmap in Hmap'. injection Hmap' as <-.
  cbn [negb orb]. now rewrite filter_true.
Qed.

End ServerSearch.

(** ** Ranking: the zero-score policy and the category filter *)

Section Ranking.
Import Fixtures.

Lemma local_ranking_perm (w : Client.world) (query : string) (o : options) (data : KB) :
  Permutation
    (Client.local_ranking w query o data)
    (List.filter (fun r => 0 <? Client.score r)
       (Client.category_filter (opt_category o)
          (map (Client.score_entry w (toLowerCase query)
                  (Client.query_words (toLowerCase query))) (entries data)))).
Proof. unfold Client.local_ranking. apply filter_perm, sort_perm. Qed.

Lemma text_ranking_perm (query : string) (o : options) (data : KB) :
  Permutation
    (Server.text_ranking query o data)
    (List.filter (fun r => PrimFloat.ltb 0%float (Server.score r))
       (List.filter (fun r => Server.passes o (Server.entry r))
          (map (Server.text_score (toLowerCase query)
                  (Server.query_words (toLowerCase query))) (entries data)))).
Proof.
  unfold Server.text_ranking. rewrite apply_filters_passes.
  apply filter_perm, filter_perm, sort_perm.
Qed.

Lemma vector_ranking_perm (o : options) (results : list Server.scored) :
  Permutation
    (Server.vector_ranking o results)
    (List.filter (fun r => Server.passes o (Server.entry r)) results).
Proof.
  unfold Server.vector_ranking. rewrite apply_filters_passes.
  apply filter_perm, sort_perm.
Qed.

(** C3: the lexical strategy ([localSearch], and [textSearch] as the
    lexical branch of [semanticSearch]) slices a ranking that holds exactly
    the filtered entries whose score is strictly greater than 0, so the
    others are discarded before the truncation to the limit; the vector
    strategy slices a ranking that holds every filtered entry, whatever its
    similarity, an entry without a cached embedding being scored 0. *)
Theorem zero_score_policy :
  forall (cw : Client.world) (sw : Server.world) (query : string) (o : options)
         (cs cs1 : Client.state) (snap : Client.snapshot)
         (ss ss1 ss2 : Server.state) (data : KB) (cache : gmap Z (list float)),
    Client.loadKB cw cs = (Normal snap, cs1) ->
    Server.loadKBData sw ss = (Normal data, ss1) ->
    Server.getEmbeddingsCache sw ss1 = (Normal cache, ss2) ->
    (exists ranking,
        Client.localSearch cw query o cs
        = (Normal (slice0 (Client.limit_or_10 o) ranking), cs1)
        /\ Permutation ranking
             (List.filter (fun r => 0 <? Client.score r)
                (Client.category_filter (opt_category o)
                   (map (Client.score_entry cw (toLowerCase query)
                           (Client.query_words (toLowerCase query)))
                        (entries (Client.snap_data snap)))))
        /\ Forall (fun r => 0 < Client.score r) ranking)
    /\ (size cache = 0%nat \/ Server.has_key sw = false ->
        exists ranking,
          Server.semanticSearch sw query o ss
          = (Normal (slice0 (Server.limit_or_10 o) ranking), ss2)
          /\ Permutation ranking
               (List.filter (fun r => PrimFloat.ltb 0%float (Server.score r))
                  (List.filter (fun r => Server.passes o (Server.entry r))
                     (map (Server.text_score (toLowerCase query)
                             (Server.query_words (toLowerCase query)))
                          (entries data))))
          /\ Forall (fun r => PrimFloat.ltb 0%float (Server.score r) = true) ranking)
    /\ (size cache <> 0%nat -> Server.has_key sw = true ->
        forall q rest, Server.w_embed sw [query] = Server.Data (q :: rest) ->
          exists scored_all ranking,
            Server.semanticSearch sw query o ss
            = (Normal (slice0 (Server.limit_or_10 o) ranking),
               snd (Server.emit (Server.EmbedCall [query]) ss2))
            /\ map Server.entry scored_all = entries data
            /\ Permutation ranking
                 (List.filter (fun r => Server.passes o (Server.entry r)) scored_all)
            /\ Forall (fun r => cache !! id (Server.entry r) = None ->
                                 Server.score r = 0%float) ranking).
Proof.
  intros cw sw query o cs cs1 snap ss ss1 ss2 data cache Hc Hload Hcache.
  split; [|split].
  - eexists. rewrite localSearch_run, Hc. split; [reflexivity|].
    split; [apply local_ranking_perm|].
    apply List.Forall_forall. intros r Hr. apply local_ranking_In in Hr. tauto.
  - intros Hbranch.
    destruct (semanticSearch_text_branch sw query o ss ss1 ss2 data cache
                Hload Hcache Hbranch) as [-> ->].
    eexists. split; [reflexivity|]. split; [apply text_ranking_perm|].
    apply List.Forall_forall. intros r Hr.
    unfold Server.text_ranking in Hr. apply filter_In in Hr. tauto.
  - intros Hsize Hkey q rest Hembed.
    destruct (semanticSearch_vector_branch sw query o ss ss1 ss2 data cache q rest
                Hload Hcache Hsize Hkey Hembed) as [results [-> [_ [Hentries Hzero]]]].
    exists results, (Server.vector_ranking o results).
    split; [reflexivity|]. split; [exact Hentries|].
    split; [apply vector_ranking_perm|].
    apply List.Forall_forall. intros r Hr.
    apply (Permutation_in _ (vector_ranking_perm o results)), filter_In in Hr.
    destruct Hr as [Hr _].
    exact (proj1 (List.Forall_forall _ _) Hzero r Hr).
Qed.

Lemma zero_score_policy_witness :
  exists scored_all ranking s',
    Server.semanticSearch sw_key "karpathy" no_options s_cached
    = (Normal (slice0 10 ranking), s')
    /\ map Server.entry scored_all = [e1; e2]
    /\ Permutation ranking
         (List.filter (fun r => Server.passes no_options (Server.entry r)) scored_all)
    /\ Forall (fun r => cache1 !! id (Server.entry r) = None ->
                         Server.score r = 0%float) ranking.
Proof.
  pose proof (zero_score_policy cw0 sw_key "karpathy" no_options Client.initial
                _ _ s_cached _ _ _ _ eq_refl eq_refl eq_refl) as [_ [_ H]].
  destruct (H ltac:(vm_compute; discriminate) eq_refl _ _ eq_refl)
    as [scored_all [ranking Hv]].
  exists scored_all, ranking. eexists. exact Hv.
Defined.

(** C9, as the specification states it, fails: with limit 1 the query
    "report tokenizer karpathy" returns entry 1 without a category and
    entry 2 with the category "misc". *)
Lemma category_result_outside_truncated_result :
  exists rs rs' s1,
    Client.localSearch cw0 "report tokenizer karpathy" (with_category "misc" 1)
      Client.initial = (Normal rs, s1)
    /\ Client.localSearch cw0 "report tokenizer karpathy"
         (without_category (with_category "misc" 1)) Client.initial = (Normal rs', s1)
    /\ map (fun r => id (Client.entry r)) rs = [2]
    /\ map (fun r => id (Client.entry r)) rs' = [1]
    /\ ~ incl (map (fun r => id (Client.entry r)) rs)
              (map (fun r => id (Client.entry r)) rs').
Proof.
  do 3 eexists. split; [reflexivity|]. split; [reflexivity|].
  split; [reflexivity|]. split; [reflexivity|].
  intros H. destruct (H 2 (or_introl eq_refl)) as [E|[]]. discriminate.
Qed.

(** C9 (amended): for every query and category, the entry ids returned with
    the category are among the entry ids returned without it, the other
    options (the limit included) being the same, whenever the result
    without the category is shorter than the limit, that is, was not
    truncated.  This holds for [localSearch] and for [semanticSearch]. *)
Theorem category_narrows_untruncated :
  forall (cw : Client.world) (sw : Server.world) (query : string) (o : options)
         (cs cs1 cs2 : Client.state) (rs rs' : list Client.scored)
         (ss ss1 ss2 : Server.state) (srs srs' : list Server.scored),
    Client.localSearch cw query o cs = (Normal rs, cs1) ->
    Client.localSearch cw query (without_category o) cs = (Normal rs', cs2) ->
    Server.semanticSearch sw query o ss = (Normal srs, ss1) ->
    Server.semanticSearch sw query (without_category o) ss = (Normal srs', ss2) ->
    (Z.of_nat (length rs') < Client.limit_or_10 o ->
     incl (map (fun r => id (Client.entry r)) rs)
          (map (fun r => id (Client.entry r)) rs'))
    /\ (Z.of_nat (length srs') < Server.limit_or_10 o ->
        incl (map (fun r => id (Server.entry r)) srs)
             (map (fun r => id (Server.entry r)) srs')).
Proof.
  intros cw sw query o cs cs1 cs2 rs rs' ss ss1 ss2 srs srs' Hl Hl' Hs Hs'.
  split.
  - intros Hshort. rewrite localSearch_run in Hl, Hl'.
    destruct (Client.loadKB cw cs) as [[snap|msg] s']; [|discriminate].
    injection Hl as <- _. injection Hl' as <- _.
    change (Client.limit_or_10 (without_category o)) with (Client.limit_or_10 o) in *.
    rewrite (slice0_short _ _ Hshort).
    apply incl_map. intros r Hr.
    apply slice0_In, local_ranking_In in Hr. destruct Hr as [Hr Hpos].
    apply local_ranking_In. split; [|exact Hpos].
    apply category_filter_In in Hr. exact Hr.
  - intros Hshort.
    destruct (semanticSearch_shape sw query ss)
      as [[msg [s' Hthrow]] | [lexical [ranked [s' Hrun]]]].
    { rewrite Hthrow in Hs. discriminate. }
    rewrite Hrun in Hs, Hs'. injection Hs as <- _. injection Hs' as <- _.
    change (Server.limit_or_10 (without_category o)) with (Server.limit_or_10 o) in *.
    rewrite (slice0_short _ _ Hshort).
    apply incl_map. intros r Hr.
    apply slice0_In in Hr. rewrite apply_filters_passes in *.
    rewrite !filter_In in *. destruct Hr as [[Hr Hpass] Hpos].
    repeat split; [exact Hr | apply passes_without_category, Hpass | exact Hpos].
Qed.

Lemma category_narrows_untruncated_witness :
  exists rs rs' cs1 srs srs' ss1,
    Client.localSearch cw0 "karpathy tokenizer" (with_category "research" 10)
      Client.initial = (Normal rs, cs1)
    /\ Client.localSearch cw0 "karpathy tokenizer"
         (without_category (with_category "research" 10)) Client.initial
       = (Normal rs', cs1)
    /\ Server.semanticSearch sw_nokey "karpathy tokenizer" (with_category "research" 10) s0
       = (Normal srs, ss1)
    /\ Server.semanticSearch sw_nokey "karpathy tokenizer"
         (without_category (with_category "research" 10)) s0 = (Normal srs', ss1)
    /\ incl (map (fun r => id (Client.entry r)) rs)
            (map (fun r => id (Client.entry r)) rs')
    /\ incl (map (fun r => id (Server.entry r)) srs)
            (map (fun r => id (Server.entry r)) srs').
Proof.
  do 6 eexists.
  split; [reflexivity|]. split; [reflexivity|].
  split; [reflexivity|]. split; [reflexivity|].
  split.
  - apply (proj1 (category_narrows_untruncated cw0 sw_nokey "karpathy tokenizer"
                    (with_category "research" 10) Client.initial _ _ _ _ s0 _ _ _ _
                    eq_refl eq_refl eq_refl eq_refl)).
    reflexivity.
  - apply (proj2 (category_narrows_untruncated cw0 sw_nokey "karpathy tokenizer"
                    (with_category "research" 10) Client.initial _ _ _ _ s0 _ _ _ _
                    eq_refl eq_refl eq_refl eq_refl)).
    reflexivity.
Defined.

End Ranking.

(** ** The vector scorer *)

Section VectorScorer.
Import Fixtures.

Lemma float_of_nan (z : float) : Prim2SF z = S754_nan -> z = Server.nan.
Proof. intros H. rewrite <- (SF2Prim_Prim2SF z), H. reflexivity. Qed.

Lemma add_nan_r (x : float) : (x + Server.nan)%float = Server.nan.
Proof.
  apply float_of_nan. rewrite add_spec.
  change (Prim2SF Server.nan) with S754_nan. unfold SF64add, SFadd.
  destruct (Prim2SF x) as [| [|] | |]; reflexivity.
Qed.

Lemma add_nan_l (x : float) : (Server.nan + x)%float = Server.nan.
Proof. apply float_of_nan. rewrite add_spec. reflexivity. Qed.

Lemma mul_nan_r (x : float) : (x * Server.nan)%float = Server.nan.
Proof.
  apply float_of_nan. rewrite mul_spec.
  change (Prim2SF Server.nan) with S754_nan. unfold SF64mul, SFmul.
  destruct (Prim2SF x) as [| [|] | |]; reflexivity.
Qed.

Lemma div_nan_r (x : float) : (x / Server.nan)%float = Server.nan.
Proof.
  apply float_of_nan. rewrite div_spec.
  change (Prim2SF Server.nan) with S754_nan. unfold SF64div, SFdiv.
  destruct (Prim2SF x) as [| [|] | |]; reflexivity.
Qed.

Lemma fold_left_ext_In {A B : Type} (f g : A -> B -> A) (l : list B) :
  (forall acc i, In i l -> f acc i = g acc i) ->
  forall acc, fold_left f l acc = fold_left g l acc.
Proof.
  induction l as [|i l IH]; intros H acc; simpl; [reflexivity|].
  rewrite (H acc i (or_introl eq_refl)). apply IH.
  intros acc' j Hj. apply H. now right.
Qed.

(** The loop reads the cached embedding only at the indices of the query
    embedding. *)
Lemma cosine_step_firstn (a b : list float) (acc : float * float * float) (i : nat) :
  (i < length a)%nat ->
  Server.cosine_step a (firstn (length a) b) acc i = Server.cosine_step a b acc i.
Proof.
  intros Hi. unfold Server.cosine_step. destruct acc as [[d na] nb].
  rewrite nth_firstn. destruct (Nat.ltb_spec i (length a)); [reflexivity | lia].
Qed.

Lemma cosineSimilarity_firstn (a b : list float) :
  Server.cosineSimilarity a (firstn (length a) b) = Server.cosineSimilarity a b.
Proof.
  unfold Server.cosineSimilarity.
  rewrite (fold_left_ext_In (Server.cosine_step a (firstn (length a) b))
             (Server.cosine_step a b)); [reflexivity|].
  intros acc i Hi. apply cosine_step_firstn. apply in_seq in Hi. lia.
Qed.

(** Once the norm of [b] is NaN it stays NaN, and an index beyond [b]
    makes it NaN. *)
Lemma cosine_step_nan_keep (a b : list float) (acc : float * float * float) (i : nat) :
  snd acc = Server.nan -> snd (Server.cosine_step a b acc i) = Server.nan.
Proof.
  unfold Server.cosine_step. destruct acc as [[d na] nb]. simpl.
  intros ->. apply add_nan_l.
Qed.

Lemma cosine_step_nan_hit (a b : list float) (acc : float * float * float) (i : nat) :
  (length b <= i)%nat -> snd (Server.cosine_step a b acc i) = Server.nan.
Proof.
  unfold Server.cosine_step. destruct acc as [[d na] nb]. simpl.
  intros Hi. rewrite (nth_overflow b Server.nan Hi), mul_nan_r. apply add_nan_r.
Qed.

Lemma cosine_fold_nan_keep (a b : list float) (l : list nat) :
  forall acc, snd acc = Server.nan ->
              snd (fold_left (Server.cosine_step a b) l acc) = Server.nan.
Proof.
  induction l as [|i l IH]; intros acc H; simpl; [exact H|].
  apply IH, cosine_step_nan_keep, H.
Qed.

Lemma cosine_fold_nan_hit (a b : list float) (l : list nat) :
  (exists i, In i l /\ (length b <= i)%nat) ->
  forall acc, snd (fold_left (Server.cosine_step a b) l acc) = Server.nan.
Proof.
  induction l as [|i l IH]; intros [j [Hj Hle]] acc; [destruct Hj|].
  simpl. destruct Hj as [->|Hj].
  - apply cosine_fold_nan_keep, cosine_step_nan_hit, Hle.
  - apply IH. exists j. now split.
Qed.

(** C8, as the specification states it, fails: a query embedding of
    dimension 1 against a cached embedding of dimension 2 yields the score 1,
    computed from the first component; a query embedding of dimension 2
    against a cached embedding of dimension 1 yields NaN.  Neither throws. *)
Lemma cosine_of_unequal_dimensions :
  length [1%float] <> length [1%float; 5%float]
  /\ Server.cosineSimilarity [1%float] [1%float; 5%float] = Normal 1%float
  /\ Server.cosineSimilarity [1%float; 2%float] [1%float] = Normal Server.nan.
Proof. repeat split. discriminate. Qed.

(** C8 (amended): a dimensionality mismatch between the query embedding and
    a cached embedding is not an error: [cosineSimilarity] returns a number.
    When the cached embedding is longer, its components beyond the length of
    the query embedding are ignored (the score is the one against its
    prefix); when it is shorter, the score is NaN. *)
Theorem cosine_dimension_mismatch :
  forall a b : list float,
    length a <> length b ->
    exists v : float,
      Server.cosineSimilarity a b = Normal v
      /\ ((length a < length b)%nat ->
          Server.cosineSimilarity a (firstn (length a) b) = Normal v)
      /\ ((length b < length a)%nat -> v = Server.nan).
Proof.
  intros a b _.
  destruct (cosineSimilarity_returns a b) as [v Hv]. exists v.
  split; [exact Hv|]. split.
  - intros _. now rewrite cosineSimilarity_firstn.
  - intros Hlt. revert Hv. unfold Server.cosineSimilarity.
    pose proof (cosine_fold_nan_hit a b (seq 0 (length a))) as Hnan.
    destruct (fold_left _ _ _) as [[d na] nb] eqn:Hfold.
    intros [= <-].
    assert (Hnb : nb = Server.nan).
    { change nb with (snd (d, na, nb)). rewrite <- Hfold. apply Hnan.
      exists (length b). split; [apply in_seq; lia | lia]. }
    rewrite Hnb. change (PrimFloat.sqrt Server.nan) with Server.nan.
    rewrite mul_nan_r. apply div_nan_r.
Qed.

Lemma cosine_dimension_mismatch_witness :
  exists v : float,
    Server.cosineSimilarity [1%float] [1%float; 5%float] = Normal v
    /\ ((1 < 2)%nat -> Server.cosineSimilarity [1%float] [1%float] = Normal v)
    /\ ((2 < 1)%nat -> v = Server.nan).
Proof.
  apply (cosine_dimension_mismatch [1%float] [1%float; 5%float]).
  discriminate.
Defined.

End VectorScorer.

(** ** The fallback router and the result envelope *)

Section Fallback.
Import Fixtures.

(** [localSearch] reads the category and the limit only. *)
Lemma localSearch_options (w : Client.world) (query : string) (o o' : options) :
  opt_category o = opt_category o' ->
  Client.limit_or_10 o = Client.limit_or_10 o' ->
  Client.localSearch w query o = Client.localSearch w query o'.
Proof.
  intros Hc Hl. unfold Client.localSearch, Client.local_ranking.
  now rewrite Hc, Hl.
Qed.

Lemma api_fallback_run (w : Client.world) (query : string) (o : options) (s : Client.state) :
  Client.api_fallback w query o s
  = match Client.localSearch w query o s with
    | (Normal rs, s') =>
        (Normal (EnvelopeBody
                   {| env_summary := None;
                      env_results := map Client.to_record rs;
                      env_total := length rs;
                      env_fallback := true;
                      env_local := false |}), s')
    | (Throw msg, s') => (Throw msg, s')
    end.
Proof.
  unfold Client.api_fallback, JS.bind, JS.ret.
  rewrite (localSearch_options w query
             {| opt_category := opt_category o; opt_dateFrom := None;
                opt_dateTo := None; opt_limit := Some (Client.limit_or_10 o);
                opt_includeSummary := None; opt_useApi := None |} o eq_refl eq_refl).
  destruct (Client.localSearch w query o s) as [[rs|msg] s']; reflexivity.
Qed.

Lemma apiSearch_remote_failed (w : Client.world) (query : string) (o : options) :
  Client.remote_failed (Client.w_fetch w (Client.api_request query o)) = true ->
  Client.apiSearch w query o = Client.api_fallback w query o.
Proof.
  unfold Client.apiSearch, Client.remote_failed.
  destruct (Client.w_fetch w _) as [msg|status [body|]]; try reflexivity.
  intros H. apply negb_true_iff in H. now rewrite H.
Qed.


(** No response of the [POST /search] route carries a fallback flag. *)
Lemma post_search_unflagged (w : Server.world) (req : request) (s : Server.state)
    (env : envelope) :
  Server.body (fst (Server.post_search w req s)) = EnvelopeBody env ->
  env_fallback env = false /\ env_local env = false.
Proof.
  unfold Server.post_search.
  destruct (req_query req) as [query|]; [|discriminate].
  destruct (negb (truthy query) || negb (truthy (trim query))); [discriminate|].
  unfold Server.search_route, JS.bind.
  destruct (Server.semanticSearch w query _ s) as [[[|r rs]|msg] s1];
    [intros [= <-]; now split | | discriminate].
  destruct (opt_includeSummary (req_options req)) as [[|]|];
    unfold Server.generateSummary, JS.bind, JS.ret, Server.emit; cbn;
    intros [= <-]; now split.
Qed.


(** Without a usable answer of the embeddings endpoint, the vector branch
    of [semanticSearch] throws. *)
Lemma semanticSearch_embed_failure (w : Server.world) (query : string)
    (s s1 s2 : Server.state) (data : KB) (cache : gmap Z (list float)) :
  Server.loadKBData w s = (Normal data, s1) ->
  Server.getEmbeddingsCache w s1 = (Normal cache, s2) ->
  size cache <> 0%nat ->
  Server.has_key w = true ->
  (forall q rest, Server.w_embed w [query] <> Server.Data (q :: rest)) ->
  exists msg,
    forall o, Server.semanticSearch w query o s
              = (Throw msg, snd (Server.emit (Server.EmbedCall [query]) s2)).
Proof.
  intros Hload Hcache Hsize Hkey Hembed.
  assert (Hq : exists msg,
             Server.getQueryEmbedding w query s2
             = (Throw msg, snd (Server.emit (Server.EmbedCall [query]) s2))).
  { unfold Server.getQueryEmbedding, JS.bind. rewrite Hkey.
    destruct (Server.w_embed w [query]) as [| |message| |[|q rest]] eqn:E;
      try (eexists; reflexivity).
    destruct (Hembed q rest eq_refl). }
  destruct Hq as [msg Hq]. exists msg. intros o.
  unfold Server.semanticSearch, JS.bind. rewrite Hload, Hcache, Hkey.
  destruct (Nat.eqb_spec (size cache) 0) as [E|_]; [contradiction|]. cbn [orb negb].
  now rewrite Hq.
Qed.

Lemma post_search_throw (w : Server.world) (req : request) (s s1 : Server.state)
    (query msg : string) :
  req_query req = Some query ->
  truthy (trim query) = true ->
  (forall o, Server.semanticSearch w query o s = (Throw msg, s1)) ->
  Server.post_search w req s
  = ({| Server.status := 500; Server.body := ErrorBody msg |}, s1).
Proof.
  intros Hq Htrim Hthrow. unfold Server.post_search. rewrite Hq, Htrim.
  assert (Ht : truthy query = true).
  { destruct query; [discriminate | reflexivity]. }
  rewrite Ht. cbn [negb orb].
  unfold Server.search_route, JS.bind. now rewrite Hthrow.
Qed.

(** The [POST /search] route answers a missing, empty or blank query with
    status 400 and does nothing else. *)
Lemma post_search_rejects_blank_query (w : Server.world) (req : request) (s : Server.state) :
  match req_query req with
  | Some query => trim query = ""
  | None => True
  end ->
  Server.post_search w req s
  = ({| Server.status := 400; Server.body := ErrorBody "Query is required" |}, s).
Proof.
  unfold Server.post_search. destruct (req_query req) as [query|]; [|reflexivity].
  intros ->. now rewrite orb_true_r.
Qed.

(** C1, as the specification states it, fails: the server has no key and no
    cached embeddings, the search through the API returns (without error)
    the one entry that the server's lexical search finds, and the envelope
    carries no fallback flag. *)
Lemma lexical_answer_of_the_server_is_not_flagged :
  Server.has_key sw_nokey = false
  /\ exists env s',
      Client.apiSearch (cw_via sw_nokey s0) "karpathy" no_options Client.initial
      = (Normal (EnvelopeBody env), s')
      /\ map (fun r => id (rec_entry r)) (env_results env) = [1]
      /\ env_fallback env = false.
Proof. split; [reflexivity|]. do 2 eexists. repeat split. Qed.

(** C1 (amended): if the request of [apiSearch] to the search API fails
    (network failure, non-success status, or a body that is not JSON), then
    [apiSearch] returns, without error, an envelope whose results are those
    of [localSearch] for the same query and options and whose [fallback]
    flag is set.  On the server, with an empty embedding cache or without a
    key, [semanticSearch] returns the result of [textSearch], and no envelope
    of the route carries a fallback flag; when the query cannot be embedded,
    the route answers with status 500, which is a failed request for
    [apiSearch]. *)
Theorem fallback_to_local :
  forall (cw : Client.world) (sw : Server.world) (query : string) (o : options)
         (cs cs1 : Client.state) (snap : Client.snapshot)
         (ss ss1 ss2 : Server.state) (data : KB) (cache : gmap Z (list float)),
    Client.loadKB cw cs = (Normal snap, cs1) ->
    Server.loadKBData sw ss = (Normal data, ss1) ->
    Server.getEmbeddingsCache sw ss1 = (Normal cache, ss2) ->
    (Client.remote_failed (Client.w_fetch cw (Client.api_request query o)) = true ->
     exists rs,
       Client.localSearch cw query o cs = (Normal rs, cs1)
       /\ Client.apiSearch cw query o cs
          = (Normal (EnvelopeBody
                       {| env_summary := None;
                          env_results := map Client.to_record rs;
                          env_total := length rs;
                          env_fallback := true;
                          env_local := false |}), cs1))
    /\ (size cache = 0%nat \/ Server.has_key sw = false ->
        exists srs,
          Server.textSearch sw query o ss2 = (Normal srs, ss2)
          /\ Server.semanticSearch sw query o ss = (Normal srs, ss2))
    /\ (forall req env,
          Server.body (fst (Server.post_search sw req ss)) = EnvelopeBody env ->
          env_fallback env = false)
    /\ (size cache <> 0%nat -> Server.has_key sw = true ->
        (forall q rest, Server.w_embed sw [query] <> Server.Data (q :: rest)) ->
        truthy (trim query) = true ->
        exists msg,
          fst (Server.post_search sw (Client.api_request query o) ss)
          = {| Server.status := 500; Server.body := ErrorBody msg |}
          /\ Client.remote_failed (Server.serve sw ss (Client.api_request query o)) = true).
Proof.
  intros cw sw query o cs cs1 snap ss ss1 ss2 data cache Hc Hload Hcache.
  split; [|split; [|split]].
  - intros Hfail. eexists.
    rewrite (apiSearch_remote_failed _ _ _ Hfail), api_fallback_run, localSearch_run, Hc.
    split; reflexivity.
  - intros Hbranch.
    destruct (semanticSearch_text_branch sw query o ss ss1 ss2 data cache
                Hload Hcache Hbranch) as [-> ->].
    eexists. split; reflexivity.
  - intros req env Henv. apply (post_search_unflagged sw req ss env Henv).
  - intros Hsize Hkey Hembed Htrim.
    destruct (semanticSearch_embed_failure sw query ss ss1 ss2 data cache
                Hload Hcache Hsize Hkey Hembed) as [msg Hthrow].
    exists msg.
    assert (Hpost := post_search_throw sw (Client.api_request query o) ss _ query msg
                       eq_refl Htrim Hthrow).
    split.
    + now rewrite Hpost.
    + unfold Server.serve. rewrite Hpost. reflexivity.
Qed.

Lemma fallback_to_local_witness :
  exists rs,
    Client.localSearch cw0 "karpathy" no_options Client.initial = (Normal rs, cs_loaded)
    /\ Client.apiSearch cw0 "karpathy" no_options Client.initial
       = (Normal (EnvelopeBody
                    {| env_summary := None;
                       env_results := map Client.to_record rs;
                       env_total := length rs;
                       env_fallback := true;
                       env_local := false |}), cs_loaded).
Proof.
  apply (proj1 (fallback_to_local cw0 sw_nokey "karpathy" no_options
                  Client.initial _ _ s0 _ _ _ _ eq_refl eq_refl eq_refl)).
  reflexivity.
Defined.

(** C6: the exported [search] of the search agent does not reject the empty
    query.  The server answers the posted empty query with status 400 and
    touches nothing; [apiSearch] takes that answer as a failed request and
    runs [localSearch] on the empty query, which matches every entry;
    [search] reports success with both entries. *)
Theorem search_accepts_empty_query :
  Server.post_search sw_nokey (Client.api_request "" no_options) s0
  = ({| Server.status := 400; Server.body := ErrorBody "Query is required" |}, s0)
  /\ exists env s',
      Client.search (cw_via sw_nokey s0) "" no_options Client.initial
      = (Normal {| Client.success := true; Client.data := EnvelopeBody env |}, s')
      /\ map (fun r => id (rec_entry r)) (env_results env) = [1; 2]
      /\ map relevance (env_results env) = [Int 100; Int 100]
      /\ env_total env = 2%nat
      /\ env_fallback env = true
      /\ Client.parses s' = 1%nat.
Proof. split; [reflexivity|]. do 2 eexists. repeat split. Qed.




End Fallback.

(** ** The scenarios of the specification *)

Section Scenarios.
Import Fixtures.

(** The query "karpathy tokenizer" under the local strategy returns the
    first entry only; the second scores 0. *)
Example scenario_local_search :
  exists rs s',
    Client.localSearch cw0 "karpathy tokenizer" no_options Client.initial = (Normal rs, s')
    /\ map (fun r => (id (Client.entry r), Client.score r, Client.matches r)) rs
       = [(1, 7, ["karpathy"; "tokenizer"])].
Proof. do 2 eexists. split; reflexivity. Qed.

(** With the category "research" the candidates are the first entry alone,
    whatever the query. *)
Example scenario_category (w : Client.world) (queryLower : string) (queryWords : list string) :
  map Client.entry
    (Client.category_filter (Some "Research")
       (map (Client.score_entry w queryLower queryWords) (entries kb0)))
  = [e1].
Proof.
  pose proof (score_entry_entry w queryLower queryWords e1) as H1.
  pose proof (score_entry_entry w queryLower queryWords e2) as H2.
  unfold Client.category_filter. cbn [entries kb0 map].
  set (r1 := Client.score_entry w queryLower queryWords e1) in *.
  set (r2 := Client.score_entry w queryLower queryWords e2) in *.
  clearbody r1 r2. destruct r1 as [x1 n1 m1], r2 as [x2 n2 m2].
  cbn [Client.entry] in H1, H2. subst x1 x2. reflexivity.
Qed.

(** A blank query is answered with status 400, and nothing is read or
    called. *)
Example scenario_blank_query :
  Server.post_search sw_key {| req_query := Some "   "; req_options := no_options |} s_cached
  = ({| Server.status := 400; Server.body := ErrorBody "Query is required" |}, s_cached).
Proof. apply post_search_rejects_blank_query. reflexivity. Qed.

(** Entries with equal scores keep the order of the snapshot. *)
Example scenario_stable_sort :
  exists rs s',
    Client.localSearch cw0 "" no_options Client.initial = (Normal rs, s')
    /\ map (fun r => (id (Client.entry r), Client.score r)) rs = [(1, 10); (2, 10)].
Proof. do 2 eexists. split; reflexivity. Qed.

End Scenarios.

(** ** Order and bounds of the results of [localSearch] *)

Section LocalOrder.
Import Fixtures.

Lemma sort_insert_descending (x : Client.scored) (l : list Client.scored) :
  descending l -> descending (sort_insert Client.after x l).
Proof.
  unfold descending. induction l as [|y l IH]; intros Hl; simpl.
  - constructor; constructor.
  - apply StronglySorted_inv in Hl. destruct Hl as [Hl Hy].
    unfold Client.after at 1. destruct (Z.ltb_spec 0 (Client.score y - Client.score x)).
    + constructor; [apply IH, Hl|].
      apply List.Forall_forall. intros z Hz.
      apply (Permutation_in _ (sort_insert_perm Client.after x l)) in Hz.
      destruct Hz as [<-|Hz]; [lia|].
      exact (proj1 (List.Forall_forall _ _) Hy z Hz).
    + constructor; [constructor; assumption|].
      constructor; [lia|].
      apply List.Forall_forall. intros z Hz.
      pose proof (proj1 (List.Forall_forall _ _) Hy z Hz). cbn in *. lia.
Qed.

Lemma sort_descending (l : list Client.scored) : descending (sort Client.after l).
Proof.
  induction l as [|x l IH]; simpl; [constructor|].
  apply sort_insert_descending, IH.
Qed.

Lemma filter_descending (p : Client.scored -> bool) (l : list Client.scored) :
  descending l -> descending (List.filter p l).
Proof.
  unfold descending. induction 1 as [|x l Hl IH Hx]; simpl; [constructor|].
  destruct (p x); [|exact IH]. constructor; [exact IH|].
  apply List.Forall_forall. intros z Hz. apply filter_In in Hz.
  exact (proj1 (List.Forall_forall _ _) Hx z (proj1 Hz)).
Qed.

Lemma firstn_descending (n : nat) (l : list Client.scored) :
  descending l -> descending (firstn n l).
Proof.
  unfold descending. intros Hl. revert n.
  induction Hl as [|x l Hl IH Hx]; intros [|n]; simpl; try constructor.
  - apply IH.
  - apply List.Forall_forall. intros z Hz. apply firstn_In in Hz.
    exact (proj1 (List.Forall_forall _ _) Hx z Hz).
Qed.

Lemma slice0_descending (limit : Z) (l : list Client.scored) :
  descending l -> descending (slice0 limit l).
Proof. unfold slice0. destruct (limit <? 0); apply firstn_descending. Qed.

(** Inserting an element does not reorder the elements of any one score. *)
Lemma sort_insert_stable (k : Z) (x : Client.scored) (l : list Client.scored) :
  List.filter (fun r => Client.score r =? k) (sort_insert Client.after x l)
  = List.filter (fun r => Client.score r =? k) (x :: l).
Proof.
  induction l as [|y l IH]; [reflexivity|].
  cbn [sort_insert]. unfold Client.after at 1.
  destruct (Z.ltb_spec 0 (Client.score y - Client.score x)); [|reflexivity].
  cbn [List.filter] in *. rewrite IH.
  destruct (Z.eqb_spec (Client.score x) k), (Z.eqb_spec (Client.score y) k);
    try reflexivity. lia.
Qed.

Lemma sort_stable (k : Z) (l : list Client.scored) :
  List.filter (fun r => Client.score r =? k) (sort Client.after l)
  = List.filter (fun r => Client.score r =? k) l.
Proof.
  induction l as [|x l IH]; [reflexivity|].
  cbn [sort]. rewrite sort_insert_stable. cbn [List.filter]. now rewrite IH.
Qed.

(** X1: the results of [localSearch] are in descending order of score, and
    results with the same score keep the order that their entries have in
    the snapshot. *)
Theorem local_results_descending_stable :
  forall (w : Client.world) (query : string) (o : options)
         (s s' : Client.state) (rs : list Client.scored),
    Client.localSearch w query o s = (Normal rs, s') ->
    descending rs
    /\ exists snap,
        Client.loadKB w s = (Normal snap, s')
        /\ rs = slice0 (Client.limit_or_10 o)
                  (Client.local_ranking w query o (Client.snap_data snap))
        /\ forall k : Z,
            List.filter (fun r => Client.score r =? k)
              (Client.local_ranking w query o (Client.snap_data snap))
            = List.filter (fun r => Client.score r =? k)
                (List.filter (fun r => 0 <? Client.score r)
                   (Client.category_filter (opt_category o)
                      (map (Client.score_entry w (toLowerCase query)
                              (Client.query_words (toLowerCase query)))
                           (entries (Client.snap_data snap))))).
Proof.
  intros w query o s s' rs. rewrite localSearch_run.
  destruct (Client.loadKB w s) as [[snap|msg] s1]; [|discriminate].
  intros [= <- <-]. split.
  - apply slice0_descending. unfold Client.local_ranking.
    apply filter_descending, sort_descending.
  - exists snap. split; [reflexivity|]. split; [reflexivity|].
    intros k. unfold Client.local_ranking.
    rewrite filter_comm, sort_stable. apply filter_comm.
Qed.

Lemma local_results_descending_stable_witness :
  exists rs,
    Client.localSearch cw0 "" no_options Client.initial = (Normal rs, cs_loaded)
    /\ descending rs.
Proof.
  eexists. split; [reflexivity|].
  apply (proj1 (local_results_descending_stable cw0 "" no_options
                  Client.initial _ _ eq_refl)).
Defined.







End LocalOrder.

(** ** Substrings and tokens *)

Section Substrings.
Import Fixtures.

Lemma str_app_cons (c : ascii) (s t : string) : String c s ++ t = String c (s ++ t).
Proof. reflexivity. Qed.

Lemma str_app_nil_r (s : string) : s ++ "" = s.
Proof.
  induction s as [|c s IH]; [reflexivity|]. now rewrite str_app_cons, IH.
Qed.

Lemma str_app_assoc (s t u : string) : (s ++ t) ++ u = s ++ (t ++ u).
Proof.
  induction s as [|c s IH]; [reflexivity|]. now rewrite !str_app_cons, IH.
Qed.

Lemma prefix_spec (t s : string) :
  String.prefix t s = true <-> exists b, s = t ++ b.
Proof.
  revert s. induction t as [|c t IH]; intros s.
  - split; [intros _; now exists s | intros _; apply prefix_empty].
  - destruct s as [|d s]; simpl.
    + split; [discriminate | intros [b Hb]; discriminate].
    + destruct (ascii_dec c d) as [->|Hne].
      * rewrite IH. split; intros [b Hb]; exists b; [now rewrite Hb | now injection Hb].
      * split; [discriminate | intros [b Hb]; injection Hb; congruence].
Qed.

(** [includes s t] holds exactly when [t] sits somewhere inside [s]. *)
Lemma includes_spec (s t : string) :
  includes s t = true <-> exists a b, s = a ++ t ++ b.
Proof.
  induction s as [|c s IH]; cbn [includes]; rewrite orb_true_iff, prefix_spec.
  - split.
    + intros [[b Hb]|H]; [|discriminate]. now exists "", b.
    + intros [a [b H]]. destruct a; [|discriminate]. left. now exists b.
  - rewrite IH. split.
    + intros [[b Hb]|[a [b H]]]; [now exists "", b|].
      exists (String c a), b. simpl. now rewrite H.
    + intros [a [b H]]. destruct a as [|d a].
      * left. now exists b.
      * right. injection H as _ H. now exists a, b.
Qed.

Lemma includes_trans (s t u : string) :
  includes s t = true -> includes t u = true -> includes s u = true.
Proof.
  rewrite !includes_spec. intros [a [b ->]] [a' [b' ->]].
  exists (a ++ a'), (b' ++ b). now rewrite !str_app_assoc.
Qed.

(** Every token that [split] yields is a piece of the string.  While a
    token is being read, [cur] holds its characters so far; after white
    space [cur] is empty. *)
Lemma split_ws_from_pieces (s : string) :
  forall (cur : string) (in_ws : bool) (t : string),
    (in_ws = true -> cur = "") ->
    In t (split_ws_from s cur in_ws) ->
    (exists p r, s = p ++ r /\ t = cur ++ p) \/ includes s t = true.
Proof.
  induction s as [|c s IH]; intros cur in_ws t Hinv Hin.
  - destruct Hin as [<-|[]]. left. exists "", "". now rewrite !str_app_nil_r.
  - cbn [split_ws_from] in Hin. destruct (is_space c).
    + assert (Hrest : In t (split_ws_from s "" true) -> includes (String c s) t = true).
      { intros H. apply includes_spec.
        destruct (IH "" true t (fun _ => eq_refl) H) as [[p [r [-> ->]]]|Hs].
        - now exists (String c ""), r.
        - apply includes_spec in Hs. destruct Hs as [a [b ->]].
          now exists (String c a), b. }
      destruct in_ws.
      * right. apply Hrest. now rewrite (Hinv eq_refl) in Hin.
      * destruct Hin as [<-|Hin]; [|right; apply Hrest, Hin].
        left. exists "", (String c s). now rewrite !str_app_nil_r.
    + destruct (IH _ false t (fun H => ltac:(discriminate)) Hin)
        as [[p [r [-> ->]]]|Hs].
      * left. exists (String c p), r. split; [reflexivity|].
        now rewrite str_app_assoc.
      * right. apply includes_spec in Hs. destruct Hs as [a [b ->]].
        apply includes_spec. now exists (String c a), b.
Qed.

Lemma split_ws_pieces (s t : string) :
  In t (split_ws s) -> includes s t = true.
Proof.
  intros H. destruct (split_ws_from_pieces s "" false t ltac:(discriminate) H)
    as [[p [r [-> ->]]]|Hs]; [|exact Hs].
  apply includes_spec. now exists "", r.
Qed.

Lemma word_hits_all (text : string) (queryWords : list string) :
  (forall t, In t queryWords -> includes text t = true) ->
  Spec.word_hits text queryWords = Z.of_nat (length queryWords).
Proof.
  intros H. unfold Spec.word_hits. now rewrite filter_all.
Qed.

(** X3: when the lowered title of an entry contains the whole lowered
    query, every query word is found in the entry, the score is the number
    of query words plus 10 plus the boosts for the summary, the source and
    the date, and the entry is shown with the relevance 100. *)
Theorem title_match_full_relevance :
  forall (w : Client.world) (query : string) (e : Entry),
    let queryLower := toLowerCase query in
    let queryWords := Client.query_words queryLower in
    includes (toLowerCase (title e)) queryLower = true ->
    Client.matches (Client.score_entry w queryLower queryWords e)
    = dedup [] queryWords
    /\ Client.score (Client.score_entry w queryLower queryWords e)
       = Z.of_nat (length queryWords) + 10
         + Spec.summary_boost (summary e) queryLower
         + Spec.source_boost (source e) queryLower
         + Client.date_boost w (date e)
    /\ relevance (Client.to_record (Client.score_entry w queryLower queryWords e))
       = Int 100.
Proof.
  intros w query e queryLower queryWords Htitle.
  assert (Hall : forall t, In t queryWords -> includes (Client.entry_text e) t = true).
  { intros t Ht. apply title_in_entry_text.
    apply (includes_trans _ queryLower _ Htitle).
    apply filter_In in Ht. apply split_ws_pieces, Ht. }
  assert (Hscore : Client.score (Client.score_entry w queryLower queryWords e)
                   = Z.of_nat (length queryWords) + 10
                     + Spec.summary_boost (summary e) queryLower
                     + Spec.source_boost (source e) queryLower
                     + Client.date_boost w (date e)).
  { rewrite score_entry_sum, (word_hits_all _ _ Hall).
    unfold Spec.title_boost. now rewrite Htitle. }
  split; [|split; [exact Hscore|]].
  - unfold Client.score_entry. rewrite fold_count_word. cbn [Client.matches].
    now rewrite (filter_all _ _ Hall).
  - unfold Client.to_record. cbn [relevance]. rewrite Hscore.
    pose proof (summary_boost_nonneg (summary e) queryLower).
    pose proof (source_boost_nonneg (source e) queryLower).
    pose proof (date_boost_range w (date e)).
    f_equal. lia.
Qed.

Lemma title_match_full_relevance_witness :
  relevance (Client.to_record
               (Client.score_entry cw0 (toLowerCase "Karpathy")
                  (Client.query_words (toLowerCase "Karpathy")) e1)) = Int 100.
Proof.
  apply (title_match_full_relevance cw0 "Karpathy" e1). reflexivity.
Defined.

End Substrings.

(** ** [search] as a whole *)

Section SearchAgent.
Import Fixtures.





End SearchAgent.

(** ** Building the embedding cache *)

Section EmbeddingCache.
Import Fixtures.

Lemma call_inputs_app (l k : list Server.event) :
  call_inputs (l ++ k) = (call_inputs l ++ call_inputs k)%list.
Proof. unfold call_inputs. apply flat_map_app. Qed.

Lemma call_inputs_embed (input : list string) (l : list Server.event) :
  call_inputs (Server.EmbedCall input :: l) = input :: call_inputs l.
Proof. reflexivity. Qed.

Lemma embed_batches_step (w : Server.world) (fuel : nat) (rest : list Entry)
    (cache : gmap Z (list float)) (calls : list Server.event) :
  rest <> [] ->
  Server.embed_batches w (S fuel) rest cache calls
  = Server.embed_batches w fuel (skipn Server.batchSize rest)
      match Server.w_embed w (map Server.embedding_text (firstn Server.batchSize rest)) with
      | Server.Data items =>
          Server.store_items (firstn Server.batchSize rest) items cache
      | _ => cache
      end
      (calls ++ [Server.EmbedCall
                   (map Server.embedding_text (firstn Server.batchSize rest))])%list.
Proof. destruct rest; [congruence | reflexivity]. Qed.

(** The loop, with enough fuel, appends its calls to the trace: the entries
    are sent in order, each exactly once, in batches of at most 100. *)
Lemma embed_batches_calls (w : Server.world) (fuel : nat) :
  forall (rest : list Entry) (cache : gmap Z (list float)) (calls : list Server.event),
    (length rest <= fuel)%nat ->
    exists new,
      snd (Server.embed_batches w fuel rest cache calls) = (calls ++ new)%list
      /\ new = map Server.EmbedCall (call_inputs new)
      /\ concat (call_inputs new) = map Server.embedding_text rest
      /\ Forall (fun input => (1 <= length input <= 100)%nat) (call_inputs new)
      /\ length new = ((length rest + 99) / 100)%nat.
Proof.
  induction fuel as [|fuel IH]; intros rest cache calls Hfuel.
  - destruct rest; [|simpl in Hfuel; lia].
    exists []. cbn. rewrite app_nil_r. repeat split. constructor.
  - destruct rest as [|e rest'].
    + exists []. cbn. rewrite app_nil_r. repeat split. constructor.
    + assert (Hne : e :: rest' <> []) by discriminate.
      set (rest := e :: rest') in *. rewrite (embed_batches_step _ _ _ _ _ Hne).
      set (batch := firstn Server.batchSize rest).
      set (cache' := match Server.w_embed w (map Server.embedding_text batch) with
                     | Server.Data items => Server.store_items batch items cache
                     | _ => cache
                     end).
      assert (Hlen : length rest = S (length rest')) by reflexivity.
      assert (Hskip : (length (skipn Server.batchSize rest) <= fuel)%nat).
      { rewrite length_skipn. unfold Server.batchSize. lia. }
      destruct (IH (skipn Server.batchSize rest) cache'
                  (calls ++ [Server.EmbedCall (map Server.embedding_text batch)])%list
                  Hskip)
        as [new [Hsnd [Hshape [Hconcat [Hsizes Hcount]]]]].
      exists (Server.EmbedCall (map Server.embedding_text batch) :: new).
      split; [rewrite Hsnd, <- app_assoc; reflexivity|].
      rewrite call_inputs_embed.
      split; [cbn [map]; now rewrite <- Hshape|].
      split.
      { cbn [concat]. rewrite Hconcat, <- map_app. unfold batch.
        now rewrite firstn_skipn. }
      split.
      { constructor; [|exact Hsizes].
        rewrite length_map. unfold batch. rewrite length_firstn.
        unfold Server.batchSize. lia. }
      cbn [length]. rewrite Hcount, length_skipn. unfold Server.batchSize.
      destruct (Nat.le_gt_cases (length rest) 100) as [Hle|Hgt].
      * replace (length rest - 100)%nat with 0%nat by lia.
        change (S ((0 + 99) / 100))%nat with 1%nat.
        apply (Nat.div_unique _ 100 1 (length rest - 1)); lia.
      * replace (length rest + 99)%nat
          with ((length rest - 100 + 99) + 1 * 100)%nat by lia.
        rewrite Nat.div_add by lia. lia.
Qed.

Lemma store_items_keys (batch : list Entry) :
  forall (items : list (list float)) (cache : gmap Z (list float)) (k : Z) (v : list float),
    Server.store_items batch items cache !! k = Some v ->
    cache !! k = Some v \/ exists e, In e batch /\ id e = k /\ In v items.
Proof.
  induction batch as [|e batch IH]; intros [|item items] cache k v H;
    try (left; exact H).
  cbn [Server.store_items] in H. apply IH in H.
  destruct H as [H|[e' [He' [Hid Hv]]]].
  - destruct (decide (id e = k)) as [<-|Hne].
    + rewrite lookup_insert_eq in H. injection H as <-.
      right. exists e. repeat split; now left.
    + rewrite lookup_insert_ne in H by exact Hne. now left.
  - right. exists e'. repeat split; [now right | exact Hid | now right].
Qed.

Lemma store_items_keeps (batch : list Entry) :
  forall (items : list (list float)) (cache : gmap Z (list float)) (k : Z),
    is_Some (cache !! k) -> is_Some (Server.store_items batch items cache !! k).
Proof.
  induction batch as [|e batch IH]; intros [|item items] cache k H; try exact H.
  cbn [Server.store_items]. apply IH.
  destruct (decide (id e = k)) as [<-|Hne].
  - rewrite lookup_insert_eq. eauto.
  - now rewrite lookup_insert_ne.
Qed.

Lemma store_items_all (batch : list Entry) :
  forall (items : list (list float)) (cache : gmap Z (list float)) (e : Entry),
    length items = length batch ->
    In e batch ->
    is_Some (Server.store_items batch items cache !! id e).
Proof.
  induction batch as [|e' batch IH]; intros [|item items] cache e Hlen He;
    try destruct He; try discriminate.
  - subst e'. cbn [Server.store_items]. apply store_items_keeps.
    rewrite lookup_insert_eq. eauto.
  - cbn [Server.store_items]. apply IH; [simpl in Hlen; lia | assumption].
Qed.

Lemma embed_batches_keys (w : Server.world) (fuel : nat) :
  forall (rest : list Entry) (cache : gmap Z (list float)) (calls : list Server.event)
         (k : Z) (v : list float),
    fst (Server.embed_batches w fuel rest cache calls) !! k = Some v ->
    cache !! k = Some v \/ exists e, In e rest /\ id e = k.
Proof.
  induction fuel as [|fuel IH]; intros rest cache calls k v H.
  - left. destruct rest; exact H.
  - destruct rest as [|e rest']; [left; exact H|].
    assert (Hne : e :: rest' <> []) by discriminate.
    set (rest := e :: rest') in *. rewrite (embed_batches_step _ _ _ _ _ Hne) in H.
    apply IH in H. destruct H as [H|[e' [He' Hid]]].
    + destruct (Server.w_embed w _) as [| | | |items]; try (left; exact H).
      apply store_items_keys in H. destruct H as [H|[e' [He' [Hid _]]]]; [now left|].
      right. exists e'. split; [eapply firstn_In, He' | exact Hid].
    + right. exists e'. split; [|exact Hid].
      rewrite <- (firstn_skipn Server.batchSize rest). apply in_or_app. now right.
Qed.

Lemma embed_batches_keeps (w : Server.world) (fuel : nat) :
  forall (rest : list Entry) (cache : gmap Z (list float)) (calls : list Server.event) (k : Z),
    is_Some (cache !! k) ->
    is_Some (fst (Server.embed_batches w fuel rest cache calls) !! k).
Proof.
  induction fuel as [|fuel IH]; intros rest cache calls k H.
  - destruct rest; exact H.
  - destruct rest as [|e rest']; [exact H|].
    rewrite embed_batches_step by discriminate. apply IH.
    destruct (Server.w_embed w _); try exact H. now apply store_items_keeps.
Qed.

Lemma embed_batches_all (w : Server.world) (fuel : nat) :
  (forall texts, exists items,
        Server.w_embed w texts = Server.Data items /\ length items = length texts) ->
  forall (rest : list Entry) (cache : gmap Z (list float)) (calls : list Server.event)
         (e : Entry),
    (length rest <= fuel)%nat ->
    In e rest ->
    is_Some (fst (Server.embed_batches w fuel rest cache calls) !! id e).
Proof.
  intros Hprov. induction fuel as [|fuel IH]; intros rest cache calls e Hfuel He.
  - destruct rest; [destruct He | simpl in Hfuel; lia].
  - destruct rest as [|e0 rest']; [destruct He|].
    assert (Hne : e0 :: rest' <> []) by discriminate.
    set (rest := e0 :: rest') in *. rewrite (embed_batches_step _ _ _ _ _ Hne).
    destruct (Hprov (map Server.embedding_text (firstn Server.batchSize rest)))
      as [items [-> Hitems]].
    rewrite length_map in Hitems.
    rewrite <- (firstn_skipn Server.batchSize rest) in He.
    apply in_app_or in He. destruct He as [He|He].
    + apply embed_batches_keeps. now apply store_items_all.
    + apply IH; [|exact He].
      rewrite length_skipn. unfold Server.batchSize.
      assert (length rest = S (length rest')) by reflexivity. lia.
Qed.

Lemma embed_batches_fail (w : Server.world) (fuel : nat) :
  (forall texts items, Server.w_embed w texts <> Server.Data items) ->
  forall (rest : list Entry) (cache : gmap Z (list float)) (calls : list Server.event),
    fst (Server.embed_batches w fuel rest cache calls) = cache.
Proof.
  intros Hfail. induction fuel as [|fuel IH]; intros rest cache calls.
  - destruct rest; reflexivity.
  - destruct rest as [|e rest']; [reflexivity|].
    rewrite embed_batches_step by discriminate. rewrite IH.
    destruct (Server.w_embed w _) as [| | | |items] eqn:E; try reflexivity.
    destruct (Hfail _ _ E).
Qed.

Lemma generateEmbeddings_run (w : Server.world) (s s1 : Server.state) (data : KB) :
  Server.loadKBData w s = (Normal data, s1) ->
  Server.generateEmbeddings w s
  = (Normal (fst (Server.embed_batches w (length (entries data)) (entries data) ∅ [])),
     {| Server.kbData := Server.kbData s1;
        Server.embeddingsCache :=
          Some (fst (Server.embed_batches w (length (entries data)) (entries data) ∅ []));
        Server.cacheFile :=
          Server.CacheFile
            (fst (Server.embed_batches w (length (entries data)) (entries data) ∅ []));
        Server.log :=
          (Server.log s1
           ++ snd (Server.embed_batches w (length (entries data)) (entries data) ∅ [])
           ++ [Server.WriteCacheFile])%list |}).
Proof.
  intros Hload. unfold Server.generateEmbeddings, JS.bind. rewrite Hload.
  destruct (Server.embed_batches _ _ _ _ _). reflexivity.
Qed.

(** X5: [generateEmbeddings] sends every entry of the snapshot to the
    embeddings endpoint exactly once and in order, in calls of at least 1 and
    at most 100 texts, which makes the number of entries divided by 100,
    rounded up, calls; it then writes the cache file once and keeps the
    cache in memory. *)
Theorem generateEmbeddings_batches :
  forall (w : Server.world) (s s1 : Server.state) (data : KB),
    Server.loadKBData w s = (Normal data, s1) ->
    exists cache calls s',
      Server.generateEmbeddings w s = (Normal cache, s')
      /\ Server.log s' = (Server.log s1 ++ calls ++ [Server.WriteCacheFile])%list
      /\ calls = map Server.EmbedCall (call_inputs calls)
      /\ concat (call_inputs calls) = map Server.embedding_text (entries data)
      /\ Forall (fun input => (1 <= length input <= 100)%nat) (call_inputs calls)
      /\ length calls = ((length (entries data) + 99) / 100)%nat
      /\ Server.embeddingsCache s' = Some cache
      /\ Server.cacheFile s' = Server.CacheFile cache.
Proof.
  intros w s s1 data Hload.
  destruct (embed_batches_calls w (length (entries data)) (entries data) ∅ []
              (Nat.le_refl _)) as [new [Hsnd H]].
  do 3 eexists. rewrite (generateEmbeddings_run _ _ _ _ Hload).
  split; [reflexivity|]. cbn [Server.log Server.embeddingsCache Server.cacheFile].
  rewrite Hsnd. cbn [app].
  split; [reflexivity|]. destruct H as [H1 [H2 [H3 H4]]].
  repeat split; assumption.
Qed.

Lemma generateEmbeddings_batches_witness :
  exists cache calls s',
    Server.generateEmbeddings sw_key s0 = (Normal cache, s')
    /\ Server.log s' = ([Server.ReadKB] ++ calls ++ [Server.WriteCacheFile])%list
    /\ length calls = 1%nat.
Proof.
  destruct (generateEmbeddings_batches sw_key s0 _ _ eq_refl)
    as [cache [calls [s' [H1 [H2 [_ [_ [_ [H3 _]]]]]]]]].
  exists cache, calls, s'. repeat split; assumption.
Defined.

(** X6: the cache that [generateEmbeddings] builds has no key that is not
    the id of an entry; when the endpoint answers every call with as many
    embeddings as it was sent texts, every entry has an embedding in it; and
    when every call fails, the cache is empty. *)
Theorem generated_cache_keys :
  forall (w : Server.world) (s s1 s' : Server.state) (data : KB)
         (cache : gmap Z (list float)),
    Server.loadKBData w s = (Normal data, s1) ->
    Server.generateEmbeddings w s = (Normal cache, s') ->
    (forall k v, cache !! k = Some v -> exists e, In e (entries data) /\ id e = k)
    /\ ((forall texts, exists items,
            Server.w_embed w texts = Server.Data items
            /\ length items = length texts) ->
        forall e, In e (entries data) -> is_Some (cache !! id e))
    /\ ((forall texts items, Server.w_embed w texts <> Server.Data items) ->
        cache = ∅).
Proof.
  intros w s s1 s' data cache Hload. rewrite (generateEmbeddings_run _ _ _ _ Hload).
  intros [= <- _]. split; [|split].
  - intros k v H. apply embed_batches_keys in H.
    destruct H as [H|H]; [|exact H]. rewrite lookup_empty in H. discriminate.
  - intros Hprov e He. now apply embed_batches_all.
  - intros Hfail. now apply embed_batches_fail.
Qed.

Lemma generated_cache_keys_witness :
  is_Some (fst (Server.embed_batches
                  {| Server.w_kbFile := Server.w_kbFile sw_key;
                     Server.OPENAI_API_KEY := Some "sk-test";
                     Server.w_embed :=
                       fun texts => Server.Data (map (fun _ => [1%float]) texts);
                     Server.w_summary := fun _ _ => None |}
                  2 (entries kb0) ∅ []) !! id e2).
Proof.
  refine (proj1 (proj2 (generated_cache_keys
                          {| Server.w_kbFile := Server.w_kbFile sw_key;
                             Server.OPENAI_API_KEY := Some "sk-test";
                             Server.w_embed :=
                               fun texts => Server.Data (map (fun _ => [1%float]) texts);
                             Server.w_summary := fun _ _ => None |}
                          s0 _ _ kb0 _ eq_refl eq_refl)) _ e2 _).
  - intros texts. eexists. split; [reflexivity | apply length_map].
  - right. now left.
Defined.

(** X7: [getEmbeddingsCache] settles after its first call: a second call
    returns the same cache and changes nothing, so the endpoint is not
    called again and the file is not written again, also when the first call
    came back with an empty cache. *)
Theorem getEmbeddingsCache_settles :
  forall (w : Server.world) (s s1 : Server.state) (cache : gmap Z (list float)),
    Server.getEmbeddingsCache w s = (Normal cache, s1) ->
    Server.getEmbeddingsCache w s1 = (Normal cache, s1).
Proof.
  intros w s s1 cache. unfold Server.getEmbeddingsCache.
  destruct (Server.embeddingsCache s) as [c|] eqn:Hc.
  { intros [= <- <-]. now rewrite Hc. }
  destruct (Server.cacheFile s) as [| |c] eqn:Hf.
  3:{ intros [= <- <-]. reflexivity. }
  all: destruct (Server.has_key w) eqn:Hkey.
  all: try (intros [= <- <-]; rewrite Hc, Hf; reflexivity).
  all: unfold Server.generateEmbeddings, JS.bind;
    destruct (Server.loadKBData w s) as [[data|msg] s2]; [|discriminate];
    destruct (Server.embed_batches _ _ _ _ _); intros [= <- <-]; reflexivity.
Qed.

Lemma getEmbeddingsCache_settles_witness :
  Server.getEmbeddingsCache sw_key
    (snd (Server.getEmbeddingsCache sw_key s_cached))
  = (Normal cache1, snd (Server.getEmbeddingsCache sw_key s_cached)).
Proof.
  exact (getEmbeddingsCache_settles sw_key s_cached _ cache1 eq_refl).
Defined.

End EmbeddingCache.

(** ** What the server's search calls *)

Section ServerCalls.
Import Fixtures.

Lemma loadKBData_trace (w : Server.world) (s s1 : Server.state) (r : completion KB) :
  Server.loadKBData w s = (r, s1) ->
  (exists l, Server.log s1 = (Server.log s ++ l)%list /\ outside_calls l = [])
  /\ Server.cacheFile s1 = Server.cacheFile s
  /\ Server.embeddingsCache s1 = Server.embeddingsCache s.
Proof.
  unfold Server.loadKBData. destruct (Server.kbData s).
  - intros [= <- <-]. split; [exists []; now rewrite app_nil_r | now split].
  - cbn. destruct (Server.w_kbFile w) as [f|]; [destruct (content f)|];
      intros [= <- <-]; cbn; (split; [exists [Server.ReadKB] | ]); now split.
Qed.

(** X8: without a key, [semanticSearch] never calls the embeddings endpoint
    and never writes the cache file: all it may add to the trace is the
    reading of the knowledge base. *)
Theorem search_without_key_stays_local :
  forall (w : Server.world) (query : string) (o : options)
         (s s' : Server.state) (r : completion (list Server.scored)),
    Server.has_key w = false ->
    Server.semanticSearch w query o s = (r, s') ->
    (exists l, Server.log s' = (Server.log s ++ l)%list /\ outside_calls l = [])
    /\ Server.cacheFile s' = Server.cacheFile s.
Proof.
  intros w query o s s' r Hkey. unfold Server.semanticSearch, JS.bind.
  destruct (Server.loadKBData w s) as [[data|msg] s1] eqn:Hload.
  2:{ intros [= <- <-]. destruct (loadKBData_trace _ _ _ _ Hload) as [H1 [H2 _]].
      now split. }
  destruct (loadKBData_trace _ _ _ _ Hload) as [[l1 [Hl1 Ho1]] [Hf1 _]].
  assert (Hcache : exists c s2,
             Server.getEmbeddingsCache w s1 = (Normal c, s2)
             /\ Server.log s2 = Server.log s1
             /\ Server.cacheFile s2 = Server.cacheFile s1).
  { unfold Server.getEmbeddingsCache. rewrite Hkey.
    destruct (Server.embeddingsCache s1);
      [do 2 eexists; split; [reflexivity | split; reflexivity]|].
    destruct (Server.cacheFile s1) eqn:Hf;
      do 2 eexists; (split; [reflexivity | split; [reflexivity | cbn; congruence]]). }
  destruct Hcache as [c [s2 [-> [Hl2 Hf2]]]]. rewrite Hkey, orb_true_r.
  unfold Server.textSearch, JS.bind, JS.ret.
  destruct (Server.loadKBData w s2) as [[data'|msg] s3] eqn:Hload2;
    intros [= <- <-];
    destruct (loadKBData_trace _ _ _ _ Hload2) as [[l3 [Hl3 Ho3]] [Hf3 _]];
    (split; [|congruence]);
    exists (l1 ++ l3)%list;
    (split; [rewrite Hl3, Hl2, Hl1; now rewrite app_assoc|]);
    unfold outside_calls in *; rewrite List.filter_app, Ho1, Ho3; reflexivity.
Qed.

Lemma search_without_key_stays_local_witness :
  (exists l, Server.log (snd (Server.semanticSearch sw_nokey "karpathy" no_options s0))
             = (Server.log s0 ++ l)%list /\ outside_calls l = [])
  /\ Server.cacheFile (snd (Server.semanticSearch sw_nokey "karpathy" no_options s0))
     = Server.cacheFile s0.
Proof.
  exact (search_without_key_stays_local sw_nokey "karpathy" no_options s0 _ _
           eq_refl eq_refl).
Defined.

(** X9: when every call of [generateEmbeddings] fails, the empty cache is
    written and kept all the same, and from then on every [semanticSearch]
    of the process is the lexical search on the loaded snapshot and changes
    nothing, whatever the endpoint would answer by then. *)
Theorem failed_generation_is_kept :
  forall (w : Server.world) (s s1 : Server.state) (data : KB),
    Server.loadKBData w s = (Normal data, s1) ->
    (forall texts items, Server.w_embed w texts <> Server.Data items) ->
    exists s',
      Server.generateEmbeddings w s = (Normal ∅, s')
      /\ Server.cacheFile s' = Server.CacheFile ∅
      /\ forall (w' : Server.world) (query : string) (o : options),
          Server.semanticSearch w' query o s'
          = (Normal (slice0 (Server.limit_or_10 o) (Server.text_ranking query o data)),
             s').
Proof.
  intros w s s1 data Hload Hfail. eexists.
  rewrite (generateEmbeddings_run _ _ _ _ Hload), (embed_batches_fail w _ Hfail).
  split; [reflexivity|]. split; [reflexivity|].
  intros w' query o.
  match goal with |- Server.semanticSearch _ _ _ ?st = _ => set (s' := st) end.
  assert (Hkb : Server.kbData s' = Some data) by apply (loadKBData_kbData _ _ _ _ Hload).
  unfold Server.semanticSearch, JS.bind.
  rewrite (loadKBData_cached w' s' data Hkb).
  change (Server.getEmbeddingsCache w' s') with (@Normal (gmap Z (list float)) ∅, s').
  cbv beta iota.
  rewrite map_size_empty. cbn [Nat.eqb orb].
  now rewrite textSearch_run, (loadKBData_cached w' s' data Hkb).
Qed.

Lemma failed_generation_is_kept_witness :
  exists s',
    Server.generateEmbeddings sw_nokey s0 = (Normal ∅, s')
    /\ Server.cacheFile s' = Server.CacheFile ∅
    /\ forall (w' : Server.world) (query : string) (o : options),
        Server.semanticSearch w' query o s'
        = (Normal (slice0 (Server.limit_or_10 o) (Server.text_ranking query o kb0)), s').
Proof.
  apply (failed_generation_is_kept sw_nokey s0 _ kb0 eq_refl). discriminate.
Defined.

End ServerCalls.

(** ** Symmetry of the cosine similarity *)

Section CosineSymmetry.
Import Fixtures.

Lemma SFmul_comm (prec emax : Z) (x y : spec_float) :
  SFmul prec emax x y = SFmul prec emax y x.
Proof.
  destruct x as [sx|sx| |sx mx ex], y as [sy|sy| |sy my ey]; cbn;
    rewrite ?(xorb_comm sx sy); try reflexivity.
  now rewrite (Pos.mul_comm mx my), (Z.add_comm ex ey).
Qed.

Lemma float_mul_comm (x y : float) : (x * y)%float = (y * x)%float.
Proof.
  rewrite <- (SF2Prim_Prim2SF (x * y)), <- (SF2Prim_Prim2SF (y * x)), !mul_spec.
  unfold SF64mul. now rewrite SFmul_comm.
Qed.

Lemma cosine_step_swap (a b : list float) (d na nb : float) (i : nat) :
  Server.cosine_step b a (d, nb, na) i
  = (fst (fst (Server.cosine_step a b (d, na, nb) i)),
     snd (Server.cosine_step a b (d, na, nb) i),
     snd (fst (Server.cosine_step a b (d, na, nb) i))).
Proof.
  unfold Server.cosine_step. cbn [fst snd].
  now rewrite (float_mul_comm (nth i b Server.nan) (nth i a Server.nan)).
Qed.

Lemma cosine_fold_swap (a b : list float) (l : list nat) :
  forall d na nb : float,
    fold_left (Server.cosine_step b a) l (d, nb, na)
    = (fst (fst (fold_left (Server.cosine_step a b) l (d, na, nb))),
       snd (fold_left (Server.cosine_step a b) l (d, na, nb)),
       snd (fst (fold_left (Server.cosine_step a b) l (d, na, nb)))).
Proof.
  induction l as [|i l IH]; intros d na nb; [reflexivity|].
  cbn [fold_left]. rewrite cosine_step_swap.
  destruct (Server.cosine_step a b (d, na, nb) i) as [[d' na'] nb'].
  cbn [fst snd]. apply IH.
Qed.

(** X10: for two embeddings of the same dimension the similarity does not
    depend on the order of the arguments, exactly, as binary64 values. *)
Theorem cosineSimilarity_symmetric :
  forall a b : list float,
    length a = length b ->
    Server.cosineSimilarity a b = Server.cosineSimilarity b a.
Proof.
  intros a b Hlen. unfold Server.cosineSimilarity. rewrite <- Hlen.
  rewrite (cosine_fold_swap a b).
  destruct (fold_left (Server.cosine_step a b) _ _) as [[d na] nb]. cbn.
  now rewrite (float_mul_comm (PrimFloat.sqrt nb) (PrimFloat.sqrt na)).
Qed.

Lemma cosineSimilarity_symmetric_witness :
  Server.cosineSimilarity [1%float; 2%float] [3%float; (-1)%float]
  = Server.cosineSimilarity [3%float; (-1)%float] [1%float; 2%float].
Proof. apply cosineSimilarity_symmetric. reflexivity. Defined.

End CosineSymmetry.

(** ** Escaping for display *)

Section Escaping.
Import Fixtures.

Lemma replace_char_app (c : ascii) (by_ a b : string) :
  Display.replace_char c by_ (a ++ b)
  = Display.replace_char c by_ a ++ Display.replace_char c by_ b.
Proof.
  induction a as [|d a IH]; [reflexivity|].
  rewrite str_app_cons. cbn [Display.replace_char]. rewrite IH.
  destruct (Ascii.eqb d c); [now rewrite str_app_assoc | reflexivity].
Qed.

Lemma escape_char_app (c : ascii) (a b : string) :
  Display.escape_char c (a ++ b) = Display.escape_char c a ++ Display.escape_char c b.
Proof. apply replace_char_app. Qed.

Lemma escape_one_character (d : ascii) :
  Display.escape_char ">" (Display.escape_char "`" (Display.escape_char "~"
    (Display.escape_char ")" (Display.escape_char "(" (Display.escape_char "]"
      (Display.escape_char "[" (Display.escape_char "_" (Display.escape_char "*"
        (Display.escape_char Display.backslash (String d "")))))))))) 
  = if Display.special d then String Display.backslash (String d "") else String d "".
Proof. destruct d as [[] [] [] [] [] [] [] []]; reflexivity. Qed.

(** X11: the ten replacements of [escapeMarkdown] amount to one pass over
    the text that puts one backslash before every backslash, star,
    underscore, bracket, parenthesis, tilde, backquote and greater-than
    sign, and leaves the other characters alone: no backslash that an
    earlier replacement wrote is escaped again by a later one. *)
Theorem escapeMarkdown_one_pass :
  forall text : string,
    Display.escapeMarkdown (Some text) = Display.escape_each text.
Proof.
  intros text. unfold Display.escapeMarkdown.
  destruct text as [|c text]; [reflexivity|]. cbn [truthy].
  generalize (String c text). clear. intros s.
  induction s as [|d s IH]; [reflexivity|].
  change (String d s) with (String d "" ++ s) at 1.
  rewrite !escape_char_app, IH, escape_one_character.
  cbn [Display.escape_each]. destruct (Display.special d); reflexivity.
Qed.

Lemma unescape_newlines_other (b : ascii) (r : string) :
  Ascii.eqb b Display.backslash = false ->
  Display.unescape_newlines (String b r) = String b (Display.unescape_newlines r).
Proof.
  intros H. cbn [Display.unescape_newlines]. rewrite H.
  destruct r; reflexivity.
Qed.

Lemma unescape_newlines_escape (c : ascii) (r : string) :
  Ascii.eqb c "n" = false ->
  Display.unescape_newlines (String Display.backslash (String c r))
  = String Display.backslash (Display.unescape_newlines (String c r)).
Proof.
  intros H. cbn [Display.unescape_newlines]. now rewrite H, andb_false_r.
Qed.

Lemma unescape_markdown_other (b : ascii) (r : string) :
  Ascii.eqb b Display.backslash = false ->
  Display.unescape_markdown (String b r) = String b (Display.unescape_markdown r).
Proof.
  intros H. cbn [Display.unescape_markdown]. rewrite H.
  destruct r; reflexivity.
Qed.

Lemma unescape_markdown_escape (c : ascii) (r : string) :
  Display.cli_class c = true ->
  Display.unescape_markdown (String Display.backslash (String c r))
  = String c (Display.unescape_markdown r).
Proof.
  intros H. cbn [Display.unescape_markdown]. now rewrite H.
Qed.

Lemma special_class (c : ascii) :
  Display.special c = Ascii.eqb c Display.backslash || Display.cli_class c.
Proof. reflexivity. Qed.

Lemma class_not_n (c : ascii) :
  Display.cli_class c = true ->
  Ascii.eqb c "n" = false /\ Ascii.eqb c Display.backslash = false.
Proof. destruct c as [[] [] [] [] [] [] [] []]; now intros. Qed.

(** X12: what the CLI prints for an escaped text without backslashes is the
    text itself: its two replacements undo [escapeMarkdown]. *)
Theorem cli_print_escapeMarkdown :
  forall text : string,
    no_backslash text = true ->
    Display.cli_print (Display.escapeMarkdown (Some text)) = text.
Proof.
  intros text. rewrite escapeMarkdown_one_pass. unfold Display.cli_print.
  induction text as [|d text IH]; [reflexivity|].
  cbn [no_backslash]. rewrite andb_true_iff, negb_true_iff. intros [Hd Hrest].
  specialize (IH Hrest). cbn [Display.escape_each].
  rewrite special_class, Hd. cbn [orb].
  destruct (Display.cli_class d) eqn:Hclass.
  - destruct (class_not_n d Hclass) as [Hn _].
    rewrite (unescape_newlines_escape d _ Hn), (unescape_newlines_other d _ Hd).
    rewrite (unescape_markdown_escape d _ Hclass). now rewrite IH.
  - rewrite (unescape_newlines_other d _ Hd), (unescape_markdown_other d _ Hd).
    now rewrite IH.
Qed.

Lemma cli_print_escapeMarkdown_witness :
  Display.cli_print (Display.escapeMarkdown (Some "a_b (c) [d] *e*")) = "a_b (c) [d] *e*".
Proof. apply cli_print_escapeMarkdown. reflexivity. Defined.

(** X13: [formatResults] shows the first five results only: two envelopes
    with the same summary, total and fallback flag, the same number of
    results and the same first five results are formatted alike. *)
Theorem formatResults_first_five :
  forall (show_float : float -> string) (env env' : envelope)
         (o : Display.format_options),
    env_summary env = env_summary env' ->
    env_total env = env_total env' ->
    env_fallback env = env_fallback env' ->
    length (env_results env) = length (env_results env') ->
    firstn 5 (env_results env) = firstn 5 (env_results env') ->
    Display.formatResults show_float (EnvelopeBody env) o
    = Display.formatResults show_float (EnvelopeBody env') o.
Proof.
  intros show_float env env' o Hs Ht Hf Hl H5. unfold Display.formatResults.
  assert (Hfmt : Display.format_envelope show_float env o
                 = Display.format_envelope show_float env' o).
  { unfold Display.format_envelope. now rewrite Hs, Ht, Hf, Hl, H5. }
  destruct (env_results env) as [|r l], (env_results env') as [|r' l'];
    try discriminate; [reflexivity | exact Hfmt].
Qed.

Lemma formatResults_first_five_witness :
  Display.formatResults MoreFixtures.show_whole (EnvelopeBody MoreFixtures.env6)
    MoreFixtures.plain_format
  = Display.formatResults MoreFixtures.show_whole (EnvelopeBody MoreFixtures.env6')
      MoreFixtures.plain_format.
Proof.
  apply formatResults_first_five; reflexivity.
Defined.

End Escaping.

(** ** Statistics and random entries *)

Section Statistics.
Import Fixtures.

Lemma same_value_eq (a b : option string) : Stats.same_value a b = true <-> a = b.
Proof.
  destruct a as [x|], b as [y|]; cbn; try (split; [discriminate | congruence]).
  - rewrite String.eqb_eq. split; congruence.
  - tauto.
Qed.

Lemma existsb_same_value (x : option string) (seen : list (option string)) :
  existsb (Stats.same_value x) seen = true <-> In x seen.
Proof.
  rewrite existsb_exists. split.
  - intros [y [Hy H]]. apply same_value_eq in H. now subst.
  - intros H. exists x. split; [exact H | now apply same_value_eq].
Qed.

Lemma dedup_values_spec (l : list (option string)) :
  forall seen,
    List.NoDup (Stats.dedup_values seen l)
    /\ forall x, In x (Stats.dedup_values seen l) <-> In x l /\ ~ In x seen.
Proof.
  induction l as [|y l IH]; intros seen; cbn [Stats.dedup_values].
  - split; [constructor | intros x; cbn; tauto].
  - destruct (existsb (Stats.same_value y) seen) eqn:E.
    + apply existsb_same_value in E. destruct (IH seen) as [Hnd Hin].
      split; [exact Hnd|]. intros x. rewrite Hin. cbn. split; [tauto|].
      intros [[<-|Hx] Hs]; [contradiction | tauto].
    + assert (Hy : ~ In y seen).
      { intros H. apply existsb_same_value in H. congruence. }
      destruct (IH (y :: seen)) as [Hnd Hin]. split.
      * constructor; [|exact Hnd]. rewrite Hin. cbn. tauto.
      * intros x. cbn. rewrite Hin. cbn.
        destruct (option_eq_dec x y) as [->|Hne]; [tauto|].
        split; [intros [H|H]; [congruence | tauto] | intros [[H|H] Hs]; [congruence|]].
        right. split; [exact H|]. intros [H'|H']; [congruence | contradiction].
Qed.

Lemma dedup_values_length (l : list (option string)) :
  forall seen, (length (Stats.dedup_values seen l) <= length l)%nat.
Proof.
  induction l as [|y l IH]; intros seen; cbn [Stats.dedup_values]; [lia|].
  destruct (existsb _ seen); cbn [length]; [specialize (IH seen) | specialize (IH (y :: seen))];
    lia.
Qed.

Lemma named_sources_In (es : list Entry) (x : string) :
  In x (named_sources es) <-> In (Some x) (map source es) /\ truthy x = true.
Proof.
  unfold named_sources. rewrite in_flat_map, in_map_iff. split.
  - intros [e [He Hx]]. destruct (source e) as [y|] eqn:Hs; [|destruct Hx].
    destruct (truthy y) eqn:Ht; [|destruct Hx].
    destruct Hx as [<-|[]]. split; [exists e; now split | exact Ht].
  - intros [[e [Hs He]] Ht]. exists e. split; [exact He|].
    rewrite Hs, Ht. now left.
Qed.

(** The number that [getStats] computes is the number of distinct
    non-empty sources. *)
Lemma distinct_sources (es : list Entry) :
  length (List.filter truthy_opt (Stats.dedup_values [] (map source es)))
  = size (list_to_set (named_sources es) : gset string).
Proof.
  destruct (dedup_values_spec (map source es) []) as [Hnd Hin].
  set (F := List.filter truthy_opt (Stats.dedup_values [] (map source es))).
  assert (HF : forall x, In x F <-> In x (map source es) /\ truthy_opt x = true).
  { intros x. unfold F. rewrite filter_In, Hin. cbn. tauto. }
  assert (HndF : List.NoDup F) by (apply List.NoDup_filter, Hnd).
  assert (HG : NoDup (or_empty <$> F)).
  { apply NoDup_fmap_2_strong; [|now apply NoDup_ListNoDup].
    intros x y Hx Hy. apply list_elem_of_In, HF in Hx. apply list_elem_of_In, HF in Hy.
    destruct x as [x|], y as [y|]; cbn in *; try (destruct Hx, Hy; discriminate).
    congruence. }
  rewrite <- (length_fmap or_empty F), <- (size_list_to_set (C := gset string) _ HG).
  f_equal. apply set_eq. intros x.
  rewrite !elem_of_list_to_set, list_elem_of_fmap, list_elem_of_In, named_sources_In.
  split.
  - intros [y [-> Hy]]. apply list_elem_of_In, HF in Hy.
    destruct y as [y|]; [exact Hy | destruct Hy; discriminate].
  - intros [Hx Ht]. exists (Some x). split; [reflexivity|].
    apply list_elem_of_In, HF. now split.
Qed.

(** X14: [getStats] reports the number of entries and, as [sources], the
    number of distinct non-empty sources of the entries, which is never more
    than the number of entries. *)
Theorem getStats_counts :
  forall (w : Client.world) (s s' : Client.state) (snap : Client.snapshot),
    Client.loadKB w s = (Normal snap, s') ->
    exists st,
      Stats.getStats w s = (Normal st, s')
      /\ Stats.totalEntries st = length (entries (Client.snap_data snap))
      /\ Stats.sources st
         = size (list_to_set (named_sources (entries (Client.snap_data snap)))
                 : gset string)
      /\ (Stats.sources st <= Stats.totalEntries st)%nat.
Proof.
  intros w s s' snap Hload. eexists.
  unfold Stats.getStats, JS.bind, JS.ret. rewrite Hload.
  split; [reflexivity|]. cbn [Stats.totalEntries Stats.sources].
  split; [reflexivity|]. split; [apply distinct_sources|].
  etransitivity; [apply List.filter_length_le|].
  etransitivity; [apply dedup_values_length|]. now rewrite length_map.
Qed.

Lemma getStats_counts_witness :
  exists st,
    Stats.getStats cw0 Client.initial = (Normal st, cs_loaded)
    /\ Stats.totalEntries st = 2%nat.
Proof.
  destruct (getStats_counts cw0 Client.initial _ _ eq_refl) as [st [H1 [H2 _]]].
  exists st. split; [exact H1 | exact H2].
Defined.

(** X15: [getRandomEntry] returns nothing when no entry is a candidate,
    and whatever the random number, an entry that it returns is an entry of
    the snapshot, of the requested category (compared without case) when one
    was requested. *)
Theorem getRandomEntry_sound :
  forall (w : Client.world) (random : float) (cat : option string)
         (s s' : Client.state) (snap : Client.snapshot),
    Client.loadKB w s = (Normal snap, s') ->
    exists out,
      Stats.getRandomEntry w random cat s = (Normal out, s')
      /\ (forall e, out = Some e ->
                    In e (entries (Client.snap_data snap))
                    /\ forall c, category_given cat = Some c ->
                                 toLowerCase (category e) = toLowerCase c)
      /\ ((forall e, In e (entries (Client.snap_data snap)) ->
                     exists c, category_given cat = Some c
                               /\ toLowerCase (category e) <> toLowerCase c) ->
          out = None).
Proof.
  intros w random cat s s' snap Hload.
  unfold Stats.getRandomEntry, JS.bind. rewrite Hload.
  set (candidates :=
         match category_given cat with
         | Some c =>
             List.filter
               (fun e => String.eqb (toLowerCase (category e)) (toLowerCase c))
               (entries (Client.snap_data snap))
         | None => entries (Client.snap_data snap)
         end).
  assert (Hcand : forall e, In e candidates ->
                            In e (entries (Client.snap_data snap))
                            /\ forall c, category_given cat = Some c ->
                                         toLowerCase (category e) = toLowerCase c).
  { intros e He. unfold candidates in He.
    destruct (category_given cat) as [c|]; [|split; [exact He | discriminate]].
    apply filter_In in He. destruct He as [He Hc]. split; [exact He|].
    intros c' [= <-]. now apply String.eqb_eq. }
  assert (Hnone : (forall e, In e (entries (Client.snap_data snap)) ->
                             exists c, category_given cat = Some c
                                       /\ toLowerCase (category e) <> toLowerCase c) ->
                  candidates = []).
  { intros H. clearbody candidates. destruct candidates as [|e l]; [reflexivity|].
    destruct (Hcand e (or_introl eq_refl)) as [Hin Hc].
    destruct (H e Hin) as [c [Hg Hne]]. destruct (Hne (Hc c Hg)). }
  clearbody candidates. destruct candidates as [|e0 l].
  - exists None. split; [reflexivity|]. split; [discriminate | reflexivity].
  - eexists. split; [reflexivity|]. split.
    + intros e He. apply Hcand.
      destruct (Stats.floor_index _) as [i|]; [|discriminate].
      eapply nth_error_In, He.
    + intros H. specialize (Hnone H). discriminate.
Qed.

Lemma getRandomEntry_sound_witness :
  exists out,
    Stats.getRandomEntry cw0 0.75%float (Some "MISC") Client.initial
    = (Normal out, cs_loaded)
    /\ out = Some e2.
Proof.
  destruct (getRandomEntry_sound cw0 0.75%float (Some "MISC") Client.initial _ _ eq_refl)
    as [out [H _]].
  exists out. split; [exact H|].
  injection H as H. rewrite <- H. reflexivity.
Defined.

End Statistics.

(** ** The text search route *)

Section TextSearchRoute.
Import Fixtures.

(** X16: while the server has no cached embeddings or no key, [POST /search]
    and [POST /text-search] answer a request that carries a limit with the
    same results and the same total, both with status 200. *)
Theorem degraded_search_is_text_search :
  forall (w : Server.world) (req : request) (s s1 s2 : Server.state)
         (data : KB) (cache : gmap Z (list float)) (query : string) (limit : Z),
    Server.loadKBData w s = (Normal data, s1) ->
    Server.getEmbeddingsCache w s1 = (Normal cache, s2) ->
    size cache = 0%nat \/ Server.has_key w = false ->
    req_query req = Some query ->
    truthy (trim query) = true ->
    opt_limit (req_options req) = Some limit ->
    exists env env',
      fst (Server.post_search w req s)
      = {| Server.status := 200; Server.body := EnvelopeBody env |}
      /\ fst (TextRoute.post_text_search w req s)
         = {| Server.status := 200; Server.body := EnvelopeBody env' |}
      /\ env_results env = env_results env'
      /\ env_total env = env_total env'.
Proof.
  intros w req s s1 s2 data cache query limit Hload Hcache Hbranch Hq Htrim Hlimit.
  assert (Ht : truthy query = true) by (destruct query; [discriminate | reflexivity]).
  set (o := {| opt_category := opt_category (req_options req);
               opt_dateFrom := opt_dateFrom (req_options req);
               opt_dateTo := opt_dateTo (req_options req);
               opt_limit := Some limit;
               opt_includeSummary := None; opt_useApi := None |}).
  destruct (semanticSearch_text_branch w query o s s1 s2 data cache Hload Hcache Hbranch)
    as [Hsem Htext].
  rewrite Htext in Hsem.
  assert (Hpost : exists env,
             fst (Server.post_search w req s)
             = {| Server.status := 200; Server.body := EnvelopeBody env |}
             /\ env_results env
                = map Server.to_record
                    (slice0 limit (Server.text_ranking query o data))
             /\ env_total env
                = length (slice0 limit (Server.text_ranking query o data))).
  { unfold Server.post_search. rewrite Hq, Htrim, Ht. cbn [negb orb].
    unfold Server.search_route, JS.bind, Server.limit_or_10. rewrite Hlimit.
    fold o. rewrite Hsem. cbn [Server.limit_or_10 opt_limit o].
    destruct (slice0 limit (Server.text_ranking query o data)) as [|r rs];
      [eexists; repeat split|].
    destruct (opt_includeSummary (req_options req)) as [[|]|];
      unfold Server.generateSummary, JS.bind, JS.ret, Server.emit; cbn;
      eexists; repeat split. }
  destruct Hpost as [env [Hp [Hr Hn]]]. exists env. eexists.
  split; [exact Hp|]. split.
  - unfold TextRoute.post_text_search. rewrite Hq, Htrim, Ht. cbn [negb orb].
    unfold TextRoute.text_route, JS.bind, JS.ret, TextRoute.limit_or_20.
    rewrite Hlimit. fold o. rewrite textSearch_run, Hload. reflexivity.
  - cbn [env_results env_total]. now rewrite Hr, Hn.
Qed.

Lemma degraded_search_is_text_search_witness :
  exists env env',
    fst (Server.post_search sw_nokey
           {| req_query := Some "karpathy"; req_options := with_limit 5 |} s0)
    = {| Server.status := 200; Server.body := EnvelopeBody env |}
    /\ fst (TextRoute.post_text_search sw_nokey
              {| req_query := Some "karpathy"; req_options := with_limit 5 |} s0)
       = {| Server.status := 200; Server.body := EnvelopeBody env' |}
    /\ env_results env = env_results env'
    /\ env_total env = env_total env'.
Proof.
  apply (degraded_search_is_text_search sw_nokey
           {| req_query := Some "karpathy"; req_options := with_limit 5 |}
           s0 _ _ kb0 ∅ "karpathy" 5 eq_refl eq_refl (or_intror eq_refl)
           eq_refl eq_refl eq_refl).
Defined.

End TextSearchRoute.

(** ** The route [POST /api/ai-search] *)

Section AiSearch.
Import KanbanFixtures.

Lemma term_score_fold (text title : string) (terms : list string) (n : Z) :
  fold_left (Kanban.term_score text title) terms n
  = n + Spec.word_hits text terms + 2 * Spec.word_hits title terms.
Proof.
  revert n. induction terms as [|t terms IH]; intros n.
  - unfold Spec.word_hits. cbn. lia.
  - cbn [fold_left]. rewrite IH. unfold Kanban.term_score, Spec.word_hits.
    cbn [List.filter].
    destruct (includes text t), (includes title t); cbn [length]; lia.
Qed.

Lemma word_hits_bounds (text : string) (terms : list string) :
  0 <= Spec.word_hits text terms <= Z.of_nat (length terms).
Proof.
  unfold Spec.word_hits. pose proof (List.filter_length_le (includes text) terms). lia.
Qed.

Lemma word_hits_mono (a b : string) (terms : list string) :
  (forall t, includes a t = true -> includes b t = true) ->
  Spec.word_hits a terms <= Spec.word_hits b terms.
Proof.
  intros H. unfold Spec.word_hits. induction terms as [|t terms IH]; [cbn; lia|].
  cbn [List.filter]. destruct (includes a t) eqn:Ha.
  - rewrite (H t Ha). cbn [length]. lia.
  - destruct (includes b t); cbn [length]; lia.
Qed.

Lemma word_hits_positive (text : string) (terms : list string) :
  0 < Spec.word_hits text terms
  <-> exists t, In t terms /\ includes text t = true.
Proof.
  unfold Spec.word_hits. split.
  - destruct (List.filter (includes text) terms) as [|t l] eqn:Hf; [cbn; lia|].
    intros _. exists t. apply filter_In. rewrite Hf. now left.
  - intros [t Ht]. apply filter_In in Ht.
    destruct (List.filter (includes text) terms); [destruct Ht | cbn [length]; lia].
Qed.

(** The lower-cased title opens the text of the entry. *)
Lemma title_in_text (e : Kanban.kb_entry) (t : string) :
  includes (toLowerCase (or_empty (Kanban.k_title e))) t = true ->
  includes (Kanban.entry_text e) t = true.
Proof.
  apply includes_trans. unfold Kanban.entry_text. rewrite toLowerCase_append.
  apply includes_spec. exists "". eexists. reflexivity.
Qed.

(** X17: the score that the route gives an entry is the number of query
    terms found in its text plus twice the number found in its title; a term
    found in the title is also found in the text, so the score lies between
    0 and three times the number of terms, and it is positive exactly when
    some term occurs in the text. *)
Theorem ai_score_counts_terms :
  forall (queryTerms : list string) (e : Kanban.kb_entry),
    let text := Kanban.entry_text e in
    let title := toLowerCase (or_empty (Kanban.k_title e)) in
    let sc := Kanban.score (Kanban.score_entry queryTerms e) in
    sc = Spec.word_hits text queryTerms + 2 * Spec.word_hits title queryTerms
    /\ Spec.word_hits title queryTerms <= Spec.word_hits text queryTerms
    /\ 0 <= sc <= 3 * Z.of_nat (length queryTerms)
    /\ (0 < sc <-> exists t, In t queryTerms /\ includes text t = true).
Proof.
  intros queryTerms e text title sc. subst text title sc.
  cbn [Kanban.score Kanban.score_entry]. rewrite term_score_fold.
  set (text := Kanban.entry_text e).
  set (title := toLowerCase (or_empty (Kanban.k_title e))).
  assert (Hle : Spec.word_hits title queryTerms <= Spec.word_hits text queryTerms)
    by (apply word_hits_mono; intros t; apply title_in_text).
  pose proof (word_hits_bounds text queryTerms).
  pose proof (word_hits_bounds title queryTerms).
  split; [lia|]. split; [exact Hle|]. split; [lia|].
  rewrite <- word_hits_positive. lia.
Qed.

Lemma lower_space (c : ascii) : is_space c = true -> lower_ascii c = c.
Proof.
  destruct c as [b0 b1 b2 b3 b4 b5 b6 b7].
  destruct b0, b1, b2, b3, b4, b5, b6, b7; vm_compute; congruence.
Qed.

Lemma split_ws_from_trailing (c : ascii) (s : string) :
  is_space c = true ->
  forall (cur : string) (in_ws : bool),
    (in_ws = true -> cur = "") ->
    In "" (split_ws_from (s ++ String c "") cur in_ws).
Proof.
  intros Hc. induction s as [|d s IH]; intros cur in_ws Hinv.
  - change ("" ++ String c "") with (String c ""). cbn [split_ws_from]. rewrite Hc.
    destruct in_ws; [left; now apply Hinv | right; now left].
  - rewrite str_app_cons. cbn [split_ws_from].
    destruct (is_space d); [|apply IH; discriminate].
    destruct in_ws; [apply IH, Hinv|]. right. apply IH. reflexivity.
Qed.

(** A query that starts or ends with white space has the empty term. *)
Lemma blank_term (query rest : string) (c : ascii) :
  query = String c rest \/ query = rest ++ String c "" ->
  is_space c = true ->
  In "" (split_ws (toLowerCase query)).
Proof.
  intros [->| ->] Hc; unfold split_ws.
  - cbn [toLowerCase split_ws_from]. rewrite (lower_space c Hc), Hc. now left.
  - rewrite toLowerCase_append. cbn [toLowerCase]. rewrite (lower_space c Hc).
    apply split_ws_from_trailing; [exact Hc | discriminate].
Qed.

Lemma blank_term_scores (terms : list string) (e : Kanban.kb_entry) :
  In "" terms -> 3 <= Kanban.score (Kanban.score_entry terms e).
Proof.
  intros Hin. cbn [Kanban.score Kanban.score_entry]. rewrite term_score_fold.
  assert (H : forall text, 1 <= Spec.word_hits text terms).
  { intros text.
    assert (0 < Spec.word_hits text terms); [|lia].
    apply word_hits_positive. exists "". split; [exact Hin | apply includes_empty]. }
  pose proof (H (Kanban.entry_text e)).
  pose proof (H (toLowerCase (or_empty (Kanban.k_title e)))). lia.
Qed.

Lemma matches_length_blank (query : string) (es : list Kanban.kb_entry) :
  In "" (split_ws (toLowerCase query)) ->
  length (Kanban.matches query es) = Nat.min 30 (length es).
Proof.
  intros Hin. unfold Kanban.matches. rewrite filter_all.
  - now rewrite length_firstn, sort_length, length_map.
  - intros x Hx. apply in_map_iff in Hx. destruct Hx as [e [<- _]].
    pose proof (blank_term_scores _ e Hin). apply Z.ltb_lt. lia.
Qed.

(** What an answer of the route is made of. *)
Lemma ai_search_answer (w : Kanban.world) (req : Kanban.ai_request)
      (summary : string) (results : list Kanban.kb_entry) (total : nat) :
  Kanban.ai_body_of (Kanban.ai_search w req) = Kanban.AiAnswer summary results total ->
  exists query entries,
    Kanban.or_null (Kanban.ai_query req) = Some query
    /\ Kanban.w_kb w = Kanban.KbDocument entries
    /\ (Kanban.getOpenRouterKey w <> None \/ Kanban.getOpenAIKey w <> None)
    /\ Kanban.ai_status (Kanban.ai_search w req) = 200
    /\ results
       = map Kanban.entry
           (firstn 10
              (Kanban.matches query
                 (Kanban.filter_entries req
                    (match entries with Some es => es | None => [] end))))
    /\ total
       = length
           (Kanban.matches query
              (Kanban.filter_entries req
                 (match entries with Some es => es | None => [] end))).
Proof.
  unfold Kanban.ai_search.
  destruct (Kanban.or_null (Kanban.ai_query req)) as [query|]; [|discriminate].
  destruct (Kanban.w_kb w) as [msg|entries]; [discriminate|].
  destruct (Kanban.getOpenRouterKey w) as [k|] eqn:Hk.
  - destruct (Kanban.w_llm w _) as [msg|content]; [discriminate|].
    cbn. intros [= <- <- <-]. exists query, entries.
    repeat split; left; discriminate.
  - destruct (Kanban.getOpenAIKey w) as [k|] eqn:Hk'; [|discriminate].
    destruct (Kanban.w_llm w _) as [msg|content]; [discriminate|].
    cbn. intros [= <- <- <-]. exists query, entries.
    repeat split; right; discriminate.
Qed.

Lemma or_null_Some (o : option string) (query : string) :
  Kanban.or_null o = Some query -> o = Some query.
Proof.
  destruct o as [q|]; cbn; [|discriminate]. destruct (truthy q); congruence.
Qed.

(** X18: when the query starts or ends with white space, its terms include
    the empty string, which every text contains: every entry that passes the
    filters matches, so an answer reports as [totalMatches] the number of
    filtered entries, capped at 30, and carries ten results, or as many as
    there are filtered entries when these are fewer. *)
Theorem blank_term_matches_every_entry :
  forall (w : Kanban.world) (req : Kanban.ai_request) (query rest : string) (c : ascii)
         (summary : string) (results : list Kanban.kb_entry) (total : nat)
         (entries : option (list Kanban.kb_entry)),
    Kanban.ai_query req = Some query ->
    query = String c rest \/ query = rest ++ String c "" ->
    is_space c = true ->
    Kanban.w_kb w = Kanban.KbDocument entries ->
    Kanban.ai_body_of (Kanban.ai_search w req) = Kanban.AiAnswer summary results total ->
    let filtered :=
      Kanban.filter_entries req (match entries with Some es => es | None => [] end) in
    (forall e, 3 <= Kanban.score (Kanban.score_entry (split_ws (toLowerCase query)) e))
    /\ total = Nat.min 30 (length filtered)
    /\ length results = Nat.min 10 (length filtered).
Proof.
  intros w req query rest c summary results total entries Hq Hshape Hc Hkb Hans filtered.
  pose proof (blank_term query rest c Hshape Hc) as Hblank.
  destruct (ai_search_answer w req summary results total Hans)
    as [query' [entries' [Hq' [Hkb' [_ [_ [Hr Ht]]]]]]].
  apply or_null_Some in Hq'. rewrite Hq in Hq'. injection Hq' as <-.
  rewrite Hkb in Hkb'. injection Hkb' as <-. fold filtered in Hr, Ht.
  pose proof (matches_length_blank query filtered Hblank) as Hlen.
  split; [intros e; now apply blank_term_scores|].
  split; [congruence|].
  rewrite Hr, length_map, length_firstn, Hlen. lia.
Qed.

Lemma blank_term_matches_every_entry_witness :
  (forall e, 3 <= Kanban.score (Kanban.score_entry (split_ws (toLowerCase " zzz")) e))
  /\ 2%nat = Nat.min 30 (length (Kanban.filter_entries (kreq " zzz") [k1; k2]))
  /\ length [k1; k2] = Nat.min 10 (length (Kanban.filter_entries (kreq " zzz") [k1; k2])).
Proof.
  apply (blank_term_matches_every_entry kw (kreq " zzz") " zzz" "zzz" " "%char
           "See [1]." [k1; k2] 2 (Some [k1; k2])
           eq_refl (or_introl eq_refl) eq_refl eq_refl eq_refl).
Defined.

Lemma filter_entries_In (req : Kanban.ai_request) (es : list Kanban.kb_entry)
      (e : Kanban.kb_entry) :
  In e (Kanban.filter_entries req es) ->
  In e es
  /\ (truthy_opt (Kanban.ai_category req) = true ->
      Kanban.k_category e = Kanban.ai_category req)
  /\ (truthy_opt (Kanban.ai_dateFrom req) = true ->
      Kanban.added_from (or_empty (Kanban.ai_dateFrom req)) e = true)
  /\ (truthy_opt (Kanban.ai_dateTo req) = true ->
      Kanban.added_to (or_empty (Kanban.ai_dateTo req)) e = true).
Proof.
  unfold Kanban.filter_entries.
  destruct (truthy_opt (Kanban.ai_category req)),
           (truthy_opt (Kanban.ai_dateFrom req)),
           (truthy_opt (Kanban.ai_dateTo req));
    rewrite ?filter_In, ?same_value_eq; intuition congruence.
Qed.

Lemma matches_In (query : string) (es : list Kanban.kb_entry) (s : Kanban.scored) :
  In s (Kanban.matches query es) ->
  In (Kanban.entry s) es
  /\ s = Kanban.score_entry (split_ws (toLowerCase query)) (Kanban.entry s)
  /\ 0 < Kanban.score s.
Proof.
  unfold Kanban.matches. intros H. apply firstn_In in H. apply sort_In in H.
  apply filter_In in H. destruct H as [H Hs]. apply in_map_iff in H.
  destruct H as [e [<- He]]. cbn [Kanban.entry Kanban.score_entry].
  split; [exact He|]. split; [reflexivity|]. now apply Z.ltb_lt.
Qed.

(** X19: an answer of the route has status 200 and needs a non-empty query,
    a readable knowledge base and a key; it reports at most 30 matches and
    carries at most ten results.  Every result is an entry of the document
    with a positive score that passes the filters of the request: its
    category is the requested one, and under a date filter it has an
    [addedAt] that compares as a string within the bounds, so that entries
    without [addedAt] are left out. *)
Theorem ai_search_answer_sound :
  forall (w : Kanban.world) (req : Kanban.ai_request)
         (summary : string) (results : list Kanban.kb_entry) (total : nat),
    Kanban.ai_body_of (Kanban.ai_search w req) = Kanban.AiAnswer summary results total ->
    Kanban.ai_status (Kanban.ai_search w req) = 200
    /\ (Kanban.getOpenRouterKey w <> None \/ Kanban.getOpenAIKey w <> None)
    /\ (total <= 30)%nat
    /\ length results = Nat.min 10 total
    /\ exists query entries,
        Kanban.ai_query req = Some query /\ query <> ""
        /\ Kanban.w_kb w = Kanban.KbDocument entries
        /\ forall e, In e results ->
             In e (match entries with Some es => es | None => [] end)
             /\ 0 < Kanban.score (Kanban.score_entry (split_ws (toLowerCase query)) e)
             /\ (truthy_opt (Kanban.ai_category req) = true ->
                 Kanban.k_category e = Kanban.ai_category req)
             /\ (truthy_opt (Kanban.ai_dateFrom req) = true ->
                 exists d, Kanban.k_addedAt e = Some d
                           /\ String.leb (or_empty (Kanban.ai_dateFrom req)) d = true)
             /\ (truthy_opt (Kanban.ai_dateTo req) = true ->
                 exists d, Kanban.k_addedAt e = Some d
                           /\ String.leb d (or_empty (Kanban.ai_dateTo req)
                                            ++ "T23:59:59Z") = true).
Proof.
  intros w req summary results total Hans.
  destruct (ai_search_answer w req summary results total Hans)
    as [query [entries [Hq [Hkb [Hkey [Hst [Hr Ht]]]]]]].
  set (filtered := Kanban.filter_entries req
                     (match entries with Some es => es | None => [] end)) in *.
  assert (H30 : (total <= 30)%nat).
  { rewrite Ht. unfold Kanban.matches. rewrite length_firstn. lia. }
  split; [exact Hst|]. split; [exact Hkey|]. split; [exact H30|].
  split; [rewrite Hr, length_map, length_firstn, <- Ht; reflexivity|].
  exists query, entries.
  split; [now apply or_null_Some|].
  split.
  { intros ->. destruct (Kanban.ai_query req) as [q|]; cbn in Hq; [|discriminate].
    destruct q; cbn in Hq; discriminate. }
  split; [exact Hkb|].
  intros e He. rewrite Hr in He. apply in_map_iff in He.
  destruct He as [s [<- Hs]]. apply firstn_In in Hs.
  apply matches_In in Hs. destruct Hs as [Hin [Heq Hpos]].
  apply filter_entries_In in Hin. destruct Hin as [Hin [Hcat [Hfrom Hto]]].
  split; [exact Hin|]. split; [now rewrite <- Heq|]. split; [exact Hcat|].
  unfold Kanban.added_from, Kanban.added_to in *.
  split; intros Hf; [specialize (Hfrom Hf) | specialize (Hto Hf)];
    destruct (Kanban.k_addedAt (Kanban.entry s)) as [d|]; try discriminate;
    exists d; split; [reflexivity | assumption | reflexivity | assumption].
Qed.

Lemma ai_search_answer_sound_witness :
  Kanban.ai_status (Kanban.ai_search kw (kreq_from "attention" "2024-01-01")) = 200
  /\ Kanban.ai_body_of (Kanban.ai_search kw (kreq_from "attention" "2024-01-01"))
     = Kanban.AiAnswer "See [1]." [k1] 1.
Proof.
  split; [|reflexivity].
  apply (ai_search_answer_sound kw (kreq_from "attention" "2024-01-01")
           "See [1]." [k1] 1 eq_refl).
Defined.

Lemma ai_sort_insert_sorted (x : Kanban.scored) (l : list Kanban.scored) :
  StronglySorted (fun a b => Kanban.score b <= Kanban.score a) l ->
  StronglySorted (fun a b => Kanban.score b <= Kanban.score a)
    (sort_insert Kanban.after x l).
Proof.
  induction l as [|y l IH]; intros Hl; simpl.
  - constructor; constructor.
  - apply StronglySorted_inv in Hl. destruct Hl as [Hl Hy].
    unfold Kanban.after at 1. destruct (Z.ltb_spec 0 (Kanban.score y - Kanban.score x)).
    + constructor; [apply IH, Hl|].
      apply List.Forall_forall. intros z Hz.
      apply (Permutation_in _ (sort_insert_perm Kanban.after x l)) in Hz.
      destruct Hz as [<-|Hz]; [lia|].
      exact (proj1 (List.Forall_forall _ _) Hy z Hz).
    + constructor; [constructor; assumption|].
      constructor; [lia|].
      apply List.Forall_forall. intros z Hz.
      pose proof (proj1 (List.Forall_forall _ _) Hy z Hz). cbn in *. lia.
Qed.

Lemma ai_sort_sorted (l : list Kanban.scored) :
  StronglySorted (fun a b => Kanban.score b <= Kanban.score a) (sort Kanban.after l).
Proof.
  induction l as [|x l IH]; simpl; [constructor|].
  apply ai_sort_insert_sorted, IH.
Qed.

Lemma firstn_sorted {A : Type} (R : A -> A -> Prop) (n : nat) (l : list A) :
  StronglySorted R l -> StronglySorted R (firstn n l).
Proof.
  intros Hl. revert n.
  induction Hl as [|x l Hl IH Hx]; intros [|n]; simpl; try constructor.
  - apply IH.
  - apply List.Forall_forall. intros z Hz. apply firstn_In in Hz.
    exact (proj1 (List.Forall_forall _ _) Hx z Hz).
Qed.

Lemma map_entry_sorted (terms : list string) (l : list Kanban.scored) :
  (forall s, In s l -> s = Kanban.score_entry terms (Kanban.entry s)) ->
  StronglySorted (fun a b => Kanban.score b <= Kanban.score a) l ->
  StronglySorted
    (fun a b => Kanban.score (Kanban.score_entry terms b)
                <= Kanban.score (Kanban.score_entry terms a))
    (map Kanban.entry l).
Proof.
  intros Hall Hl. induction Hl as [|x l Hl IH Hx]; cbn [map]; constructor.
  - apply IH. intros s Hs. apply Hall. now right.
  - apply List.Forall_forall. intros e He. apply in_map_iff in He.
    destruct He as [s [<- Hs]].
    assert (Es : Kanban.score (Kanban.score_entry terms (Kanban.entry s)) = Kanban.score s)
      by (f_equal; symmetry; apply Hall; now right).
    assert (Ex : Kanban.score (Kanban.score_entry terms (Kanban.entry x)) = Kanban.score x)
      by (f_equal; symmetry; apply Hall; now left).
    rewrite Es, Ex. exact (proj1 (List.Forall_forall _ _) Hx s Hs).
Qed.

(** X20: the results of an answer are in descending order of the score
    that the route gives them: they are the entries of the first ten of a
    list of [totalMatches] scored matches that is itself in descending order
    of score, so no match that is left out outscores one that is carried. *)
Theorem ai_search_results_ranked :
  forall (w : Kanban.world) (req : Kanban.ai_request) (query : string)
         (summary : string) (results : list Kanban.kb_entry) (total : nat),
    Kanban.ai_query req = Some query ->
    Kanban.ai_body_of (Kanban.ai_search w req) = Kanban.AiAnswer summary results total ->
    StronglySorted
      (fun a b => Kanban.score (Kanban.score_entry (split_ws (toLowerCase query)) b)
                  <= Kanban.score (Kanban.score_entry (split_ws (toLowerCase query)) a))
      results
    /\ exists ranked,
        StronglySorted (fun a b => Kanban.score b <= Kanban.score a) ranked
        /\ length ranked = total
        /\ results = map Kanban.entry (firstn 10 ranked).
Proof.
  intros w req query summary results total Hq Hans.
  destruct (ai_search_answer w req summary results total Hans)
    as [query' [entries [Hq' [_ [_ [_ [Hr Ht]]]]]]].
  apply or_null_Some in Hq'. rewrite Hq in Hq'. injection Hq' as <-.
  set (ranked := Kanban.matches query _) in *.
  assert (Hsorted : StronglySorted (fun a b => Kanban.score b <= Kanban.score a) ranked)
    by (apply firstn_sorted, ai_sort_sorted).
  split.
  - rewrite Hr. apply map_entry_sorted.
    + intros s Hs. apply firstn_In in Hs. now apply matches_In in Hs.
    + now apply firstn_sorted.
  - exists ranked. split; [exact Hsorted|]. split; [now symmetry | exact Hr].
Qed.

Lemma ai_search_results_ranked_witness :
  StronglySorted
    (fun a b => Kanban.score (Kanban.score_entry (split_ws (toLowerCase "models attention")) b)
                <= Kanban.score (Kanban.score_entry (split_ws (toLowerCase "models attention")) a))
    [k1; k2].
Proof.
  apply (ai_search_results_ranked kw (kreq "models attention") "models attention"
           "See [1]." [k1; k2] 2 eq_refl eq_refl).
Defined.

End AiSearch.
